(** * go-cms plugin subsystem: Extractor, Compiler, Loader, Manager

    A shallow embedding of [internal/plugins/{extractor,compiler,loader,manager}.go]
    and machine-checked statements about install, extraction, the build
    cache, reload, hot reload, archive validation, the platform gate, the
    locking discipline, the keys of the registry and [GetAllPlugins].

    Layout: Go library functions used by the package ([strings], [path/filepath],
    [os], [sync], [plugin], [os/exec]) are modelled first, then the four
    components in the order of the source files, then the theorems. *)

From Stdlib Require Import ZArith Lia String Ascii List Bool.
From stdpp Require Import base option list gmap strings pretty.

Open Scope Z_scope.
Open Scope string_scope.
Open Scope list_scope.

(* ===================================================================== *)
(** ** Package [strings] *)
(* ===================================================================== *)

Module Strings.

(** [strings.HasPrefix(s, p)] *)
Definition HasPrefix (s p : string) : bool := String.prefix p s.

(** [strings.HasSuffix(s, suf)]:
    [len(s) >= len(suf) && s[len(s)-len(suf):] == suf] *)
Definition HasSuffix (s suf : string) : bool :=
  (String.length suf <=? String.length s)%nat &&
  String.eqb (String.substring (String.length s - String.length suf)
                               (String.length suf) s) suf.

(** [strings.Contains(s, sub)]: some suffix of [s] starts with [sub]. *)
Fixpoint Contains (s sub : string) : bool :=
  String.prefix sub s ||
  match s with
  | EmptyString => false
  | String _ s' => Contains s' sub
  end.

(** [strings.TrimSuffix(s, suf)] *)
Definition TrimSuffix (s suf : string) : string :=
  if HasSuffix s suf
  then String.substring 0 (String.length s - String.length suf) s
  else s.

Definition lower_ascii (c : ascii) : ascii :=
  let n := nat_of_ascii c in
  if ((65 <=? n) && (n <=? 90))%nat then ascii_of_nat (n + 32) else c.

(** [strings.ToLower] on the ASCII fragment: bytes outside [A-Z] are kept. *)
Fixpoint ToLower (s : string) : string :=
  match s with
  | EmptyString => EmptyString
  | String c s' => String (lower_ascii c) (ToLower s')
  end.

(** [strings.Join(elems, sep)] *)
Fixpoint Join (elems : list string) (sep : string) : string :=
  match elems with
  | [] => ""
  | [x] => x
  | x :: rest => x +:+ sep +:+ Join rest sep
  end.

End Strings.

(* ===================================================================== *)
(** ** Package [path/filepath] (Unix separator) *)
(* ===================================================================== *)

Module Filepath.

(** The elements of a path between separators: ["a//b"] gives
    [["a"; ""; "b"]] and [""] gives [[""]]. *)
Fixpoint split_slash (s : string) : list string :=
  match s with
  | EmptyString => [EmptyString]
  | String c s' =>
      if Ascii.eqb c "/" then EmptyString :: split_slash s'
      else match split_slash s' with
           | [] => [String c EmptyString]
           | x :: xs => String c x :: xs
           end
  end.

Definition is_rooted (s : string) : bool := String.prefix "/" s.

(** One element of the lexical processing done by [Clean]; the stack holds
    the elements kept so far, innermost first.  A [".."] removes the
    element before it, except that a relative path keeps leading [".."]
    elements and a rooted path drops them. *)
Definition clean_step (rooted : bool) (stack : list string) (c : string)
  : list string :=
  if String.eqb c "" || String.eqb c "." then stack
  else if String.eqb c ".." then
    match stack with
    | top :: rest => if String.eqb top ".." then c :: stack else rest
    | [] => if rooted then [] else [c]
    end
  else c :: stack.

Definition clean_stack (rooted : bool) (cs : list string) : list string :=
  fold_left (clean_step rooted) cs [].

(** The elements of the cleaned path, outermost first; a rooted path
    starts with the marker element ["/"].  This is the name under which
    the file system stores an entry. *)
Definition path_key (p : string) : list string :=
  let r := is_rooted p in
  (if r then ["/"] else []) ++ rev (clean_stack r (split_slash p)).

Definition render (k : list string) : string :=
  match k with
  | [] => "."
  | c :: rest =>
      if String.eqb c "/" then "/" +:+ Strings.Join rest "/" else Strings.Join k "/"
  end.

(** [filepath.Clean] *)
Definition Clean (p : string) : string := render (path_key p).

(** [filepath.Join] of two elements: empty leading elements are ignored,
    the rest is joined with the separator and cleaned. *)
Definition Join (a b : string) : string :=
  if String.eqb a "" then (if String.eqb b "" then "" else Clean b)
  else Clean (a +:+ "/" +:+ b).

(** The part of [s] up to and including its last separator. *)
Fixpoint upto_last_slash (s : string) : string :=
  match s with
  | EmptyString => EmptyString
  | String c s' =>
      if Strings.Contains s "/" then String c (upto_last_slash s') else EmptyString
  end.

(** [filepath.Dir] *)
Definition Dir (p : string) : string := Clean (upto_last_slash p).

(** [filepath.Base]: the last element, trailing separators removed. *)
Definition Base (p : string) : string :=
  if String.eqb p "" then "."
  else match filter (fun c => negb (String.eqb c "")) (split_slash p) with
       | [] => "/"
       | c :: cs => List.last cs c
       end.

End Filepath.

(* ===================================================================== *)
(** ** The host: file system, plugin objects, events *)
(* ===================================================================== *)

(** A file-system entry as [os.FileInfo] shows it. *)
Record node := mk_node {
  n_dir : bool;      (* IsDir() *)
  n_size : Z;        (* Size() *)
  n_mtime : Z;       (* ModTime() *)
  n_mode : Z         (* Mode().Perm() *)
}.

(** Entries are stored under the elements of their cleaned path. *)
Abbreviation path := (list string).
Abbreviation FS := (gmap (list string) node).

(** A [*plugin.Plugin] handle and a value of the [Plugin] interface
    (an object identity). *)
Definition Handle := nat.
Definition Plugin := nat.

(** [PluginInfo] of interface.go *)
Record PluginInfo := mk_info {
  Name : string;
  Version : string;
  Description : string;
  Author : string;
  Website : string
}.

(** One file of a [zip.Reader]. *)
Record ZipFile := mk_zip {
  zf_Name : string;
  zf_IsDir : bool;         (* FileInfo().IsDir() *)
  zf_Mode : Z;             (* FileInfo().Mode() *)
  zf_Size : Z;
  zf_open_fails : bool;    (* file.Open() returns an error *)
  zf_copy_fails : bool     (* io.Copy returns an error *)
}.

(** What the program does to its surroundings, in order. *)
Inductive Event :=
| EvLock | EvUnlock | EvRLock | EvRUnlock
| EvStat (k : path)
| EvRemoveAll (k : path)
| EvRemove (k : path)
| EvMkdirAll (k : path)
| EvWriteFile (k : path)
| EvReadDir (k : path)
| EvGlob (k : path)
| EvWalk (k : path)
| EvZipOpen (p : string)
| EvExec (dir : string) (args : list string)
| EvPluginOpen (p : string)
| EvNewPlugin (h : Handle) (r : option Plugin)
| EvInitialize (p : Plugin)
| EvShutdown (p : Plugin)
| EvRegisterRoutes (group : string) (p : Plugin)
| EvLog (msg : string)
| EvPrint (msg : string).

#[global] Instance Event_eq_dec : EqDecision Event.
Proof. solve_decision. Defined.

(** Result of [p.Lookup("NewPlugin")] followed by the type assertion
    [symbol.(func() Plugin)]. *)
Inductive LookupResult :=
| SymMissing (err : string)
| SymWrongType
| SymConstructor.

(** Outcome of running an external command ([CombinedOutput]). *)
Record ExecResult := mk_exec {
  x_err : option string;     (* the [err] of CombinedOutput *)
  x_out : string;            (* captured output *)
  x_fs : FS                  (* the file system the command leaves behind *)
}.

(** Everything outside the package: the Go toolchain, the dynamic loader,
    the archive reader and the plugins' own code.  Each answer may depend
    on the time of the call and the file system at that time; a command
    receives its working directory and may write anywhere. *)
Record Env := mk_env {
  GOOS : string;
  GOARCH : string;
  zip_reader : Z -> FS -> string -> option (list ZipFile);
  go_mod_tidy : Z -> FS -> string -> ExecResult;
  go_build : Z -> FS -> string -> string -> ExecResult;
  go_objdump : Z -> FS -> string -> ExecResult;
  dl_open : Z -> FS -> string -> Handle + string;
  dl_lookup : Handle -> LookupResult;
  new_plugin : Z -> Handle -> option Plugin;
  GetInfo : Plugin -> PluginInfo;
  Initialize : Z -> Plugin -> option string;
  Shutdown : Z -> Plugin -> option string
}.

(** [sync.RWMutex] as seen by the goroutine running a Manager method:
    what that goroutine itself holds. *)
Inductive LockState := Free | WLocked | RLocked (n : nat).

(** The structs of the package. *)
Record Extractor := mk_extractor { basePluginDir : string }.
Record Compiler := mk_compiler { c_buildDir : string; goPath : string }.
Record Loader := mk_loader {
  loadedPlugins : gmap string Handle;
  pluginDir : string;
  buildDir : string;
  extractor : Extractor;
  compiler : Compiler
}.
Record Manager := mk_manager {
  plugins : nat;                       (* reference to a map[string]Plugin *)
  pluginPaths : gmap string string;
  loader : Loader;
  deps : bool;                         (* m.deps != nil *)
  mu : LockState;
  router : bool                        (* m.router != nil *)
}.

(** The state threaded through every call.  [heap] holds the
    [map[string]Plugin] objects: a map value in Go is a reference, and
    [GetAllPlugins] hands one to its caller. *)
Record State := mk_state {
  fs : FS;
  clock : Z;
  trace : list Event;
  heap : list (gmap string Plugin);
  mgr : Manager
}.

Definition set_fs (f : FS -> FS) (s : State) : State :=
  mk_state (f (fs s)) (clock s) (trace s) (heap s) (mgr s).
Definition set_heap (f : list (gmap string Plugin) -> list (gmap string Plugin))
  (s : State) : State :=
  mk_state (fs s) (clock s) (trace s) (f (heap s)) (mgr s).
Definition set_mgr (f : Manager -> Manager) (s : State) : State :=
  mk_state (fs s) (clock s) (trace s) (heap s) (f (mgr s)).
Definition emit (e : Event) (s : State) : State :=
  mk_state (fs s) (clock s + 1) (trace s ++ [e]) (heap s) (mgr s).

Definition set_mu (l : LockState) (m : Manager) : Manager :=
  mk_manager (plugins m) (pluginPaths m) (loader m) (deps m) l (router m).
Definition set_pluginPaths (f : gmap string string -> gmap string string)
  (m : Manager) : Manager :=
  mk_manager (plugins m) (f (pluginPaths m)) (loader m) (deps m) (mu m) (router m).
Definition set_loadedPlugins (f : gmap string Handle -> gmap string Handle)
  (m : Manager) : Manager :=
  let l := loader m in
  mk_manager (plugins m) (pluginPaths m)
    (mk_loader (f (loadedPlugins l)) (pluginDir l) (buildDir l) (extractor l) (compiler l))
    (deps m) (mu m) (router m).

(** *** Outcomes and sequencing *)

(** A call returns, or blocks for ever on a lock, or panics. *)
Inductive Res (A : Type) :=
| Done (a : A) (s : State)
| Blocked (s : State)
| Panicked (s : State).
Arguments Done {A} a s.
Arguments Blocked {A} s.
Arguments Panicked {A} s.

Definition M (A : Type) := State -> Res A.

Definition ret {A} (a : A) : M A := fun s => Done a s.
Definition bind {A B} (m : M A) (f : A -> M B) : M B :=
  fun s => match m s with
           | Done a s' => f a s'
           | Blocked s' => Blocked s'
           | Panicked s' => Panicked s'
           end.

Notation "x <- m ;; k" := (bind m (fun x => k))
  (at level 100, m at next level, right associativity).
Notation "m ;; k" := (bind m (fun _ => k))
  (at level 100, right associativity).

Definition get {A} (f : State -> A) : M A := fun s => Done (f s) s.
Definition modify (f : State -> State) : M unit := fun s => Done tt (f s).
Definition event (e : Event) : M unit := modify (emit e).

(* ===================================================================== *)
(** ** Package [os] and [path/filepath.Walk] over the file-system map *)
(* ===================================================================== *)

Module Fs.

(** The working directory is always there. *)
Definition cwd_node : node := mk_node true 0 0 493.

Definition stat (f : FS) (k : path) : option node :=
  match k with
  | [] => Some cwd_node
  | _ => f !! k
  end.

(** What [os.Stat] finds at a path string; the empty string names nothing. *)
Definition stat_path (f : FS) (p : string) : option node :=
  if String.eqb p "" then None else stat f (Filepath.path_key p).

Definition is_dir (f : FS) (k : path) : bool :=
  match stat f k with Some n => n_dir n | None => false end.

(** Owner-read permission, needed to list a directory. *)
Definition readable (n : node) : bool := Z.testbit (n_mode n) 8.

Definition parent (k : path) : path := removelast k.

(** [os.MkdirAll]: an existing directory is kept, an existing file is an
    error, otherwise the parent is made first.  [rk] is the key reversed. *)
Fixpoint mkdir_all (f : FS) (now mode : Z) (rk : list string) : option FS :=
  match rk with
  | [] => Some f
  | _ :: rest =>
      match f !! rev rk with
      | Some n => if n_dir n then Some f else None
      | None =>
          match mkdir_all f now mode rest with
          | Some f' => Some (<[rev rk := mk_node true 0 now mode]> f')
          | None => None
          end
      end
  end.

(** [os.RemoveAll]: the entry and everything below it. *)
Definition remove_all (f : FS) (k : path) : FS :=
  filter (fun kv => ¬ k `prefix_of` kv.1) f.

Definition has_children (f : FS) (k : path) : bool :=
  bool_decide (filter (fun kv : path * node => k `prefix_of` kv.1 ∧ kv.1 ≠ k) f ≠ ∅).

(** [os.Remove]: a file or an empty directory. *)
Definition remove (f : FS) (k : path) : option FS :=
  match k with
  | [] => None
  | _ => match f !! k with
         | None => None
         | Some n => if n_dir n && has_children f k then None else Some (delete k f)
         end
  end.

(** Create or truncate a regular file ([O_WRONLY|O_CREATE|O_TRUNC]); the
    mode applies to a file that is created. *)
Definition create (f : FS) (now mode size : Z) (k : path) : option FS :=
  match stat f k with
  | Some n =>
      if n_dir n then None
      else Some (<[k := mk_node false size now (n_mode n)]> f)
  | None =>
      if is_dir f (parent k) then Some (<[k := mk_node false size now mode]> f)
      else None
  end.

(** Byte-wise order on names, element by element on paths: the order in
    which a depth-first traversal with sorted directories meets entries. *)
Fixpoint path_le (a b : path) : bool :=
  match a, b with
  | [], _ => true
  | _ :: _, [] => false
  | x :: a', y :: b' =>
      match String.compare x y with
      | Lt => true
      | Gt => false
      | Eq => path_le a' b'
      end
  end.

Fixpoint insert_path (x : path) (l : list path) : list path :=
  match l with
  | [] => [x]
  | y :: l' => if path_le x y then x :: l else y :: insert_path x l'
  end.

Definition sort_paths (l : list path) : list path := foldr insert_path [] l.

(** The names in directory [k], sorted ([os.ReadDir], [readDirNames]). *)
Definition read_dir (f : FS) (k : path) : list path :=
  sort_paths (filter (fun j => parent j = k ∧ j ≠ k) (map fst (map_to_list f))).

(** [j] below [root] can be reached by listing directories: every
    directory from [root] down to the parent of [j] exists and is
    readable. *)
Definition reachable (f : FS) (root j : path) : bool :=
  let rel := drop (length root) j in
  forallb (fun i => match stat f (root ++ take i rel) with
                    | Some n => n_dir n && readable n
                    | None => false
                    end)
          (seq 0 (length rel)).

(** What [filepath.Walk] meets below [root], in its order. *)
Definition walk_list (f : FS) (root : path) : list path :=
  sort_paths (filter (fun j => root `prefix_of` j ∧ j ≠ root ∧ reachable f root j = true)
                     (map fst (map_to_list f))).

End Fs.

(** Return value of a [filepath.WalkFunc]. *)
Inductive WalkRet := WalkNil | WalkSkipDir | WalkErr (e : string).

Section Walk.
Context {St : Type}.
(** The callback, with the variables it captures passed through [St]. *)
Variable fn : string -> option node -> option string -> St -> St * WalkRet.
Variable f : FS.
Variable root : string.

(** The path string handed to the callback: [Join(path, name)] from the
    root down. *)
Definition walk_path (k : path) : string :=
  fold_left Filepath.Join (drop (length (Filepath.path_key root)) k) root.

(** A directory that cannot be listed is reported to the callback with an
    error; [SkipDir] from a directory skips its contents, [SkipDir] from a
    file skips the rest of the containing directory; any other error
    stops the walk. *)
Fixpoint walk_fold (ks : list path) (skip : option path) (st : St)
  : St * option string :=
  match ks with
  | [] => (st, None)
  | k :: ks' =>
      if match skip with
         | Some p => bool_decide (p `prefix_of` k)
         | None => false
         end
      then walk_fold ks' skip st
      else
        let n := Fs.stat f k in
        let err := match n with
                   | Some i => if n_dir i && negb (Fs.readable i)
                               then Some ("open " +:+ walk_path k +:+ ": permission denied")
                               else None
                   | None => Some ("lstat " +:+ walk_path k +:+ ": no such file or directory")
                   end in
        let '(st', r) := fn (walk_path k) n err st in
        match r with
        | WalkErr e => (st', Some e)
        | WalkSkipDir =>
            walk_fold ks' (Some (if Fs.is_dir f k then k else Fs.parent k)) st'
        | WalkNil => walk_fold ks' skip st'
        end
  end.

Definition walk (st : St) : St * option string :=
  let rk := Filepath.path_key root in
  walk_fold (rk :: Fs.walk_list f rk) None st.
End Walk.

Definition nl : string := String (ascii_of_nat 10) EmptyString.

(** [s] between double quotes. *)
Definition q (s : string) : string :=
  String (ascii_of_nat 34) s +:+ String (ascii_of_nat 34) EmptyString.

Fixpoint foldM {A B} (f : B -> A -> M B) (l : list A) (b : B) : M B :=
  match l with
  | [] => ret b
  | x :: l' => b' <- f b x ;; foldM f l' b'
  end.

(** A [for ... range] loop whose body may [return err]. *)
Fixpoint for_each {A} (body : A -> M (option string)) (l : list A) : M (option string) :=
  match l with
  | [] => ret None
  | x :: l' =>
      r <- body x ;;
      match r with
      | Some e => ret (Some e)
      | None => for_each body l'
      end
  end.

Section Program.

Variable E : Env.

(* ------------------------------------------------------------------- *)
(** *** System calls.  Each one leaves an event and advances the clock. *)
(* ------------------------------------------------------------------- *)

Definition K (p : string) : path := Filepath.path_key p.

(** [os.Stat]; [None] is the error for which [os.IsNotExist] holds, the
    only failure of [Stat] in this file system. *)
Definition os_Stat (p : string) : M (option node) :=
  event (EvStat (K p)) ;;
  f <- get fs ;;
  ret (Fs.stat_path f p).

Definition os_RemoveAll (p : string) : M (option string) :=
  event (EvRemoveAll (K p)) ;;
  if String.eqb p "" then ret None
  else if String.eqb p "." || Strings.HasSuffix p "/."
  then ret (Some ("RemoveAll " +:+ p +:+ ": invalid argument"))
  else modify (set_fs (fun f => Fs.remove_all f (K p))) ;; ret None.

Definition os_Remove (p : string) : M (option string) :=
  event (EvRemove (K p)) ;;
  f <- get fs ;;
  match (if String.eqb p "" then None else Fs.remove f (K p)) with
  | Some f' => modify (set_fs (fun _ => f')) ;; ret None
  | None => ret (Some ("remove " +:+ p +:+ ": no such file or directory not empty"))
  end.

Definition os_MkdirAll (p : string) (mode : Z) : M (option string) :=
  event (EvMkdirAll (K p)) ;;
  f <- get fs ;;
  now <- get clock ;;
  match (if String.eqb p "" then None else Fs.mkdir_all f now mode (rev (K p))) with
  | Some f' => modify (set_fs (fun _ => f')) ;; ret None
  | None => ret (Some ("mkdir " +:+ p +:+ ": not a directory"))
  end.

(** [os.OpenFile(p, O_WRONLY|O_CREATE|O_TRUNC, mode)] and [os.WriteFile]
    with [size] bytes. *)
Definition os_WriteFile (p : string) (size mode : Z) : M (option string) :=
  event (EvWriteFile (K p)) ;;
  f <- get fs ;;
  now <- get clock ;;
  match (if String.eqb p "" then None else Fs.create f now mode size (K p)) with
  | Some f' => modify (set_fs (fun _ => f')) ;; ret None
  | None => ret (Some ("open " +:+ p +:+ ": is a directory or no such file or directory"))
  end.

Definition os_OpenFile (p : string) (mode : Z) : M (option string) :=
  os_WriteFile p 0 mode.

(** [io.Copy] into the file opened at [p]. *)
Definition io_Copy (p : string) (size : Z) (fails : bool) : M (option string) :=
  event (EvWriteFile (K p)) ;;
  now <- get clock ;;
  modify (set_fs (fun f => match f !! K p with
                           | Some n => <[K p := mk_node false size now (n_mode n)]> f
                           | None => f
                           end)) ;;
  ret (if fails then Some "zip: checksum error" else None).

(** [os.ReadDir]: names with [IsDir()], sorted by name. *)
Definition os_ReadDir (p : string) : M (list (string * bool) + string) :=
  event (EvReadDir (K p)) ;;
  f <- get fs ;;
  match Fs.stat_path f p with
  | Some n =>
      if n_dir n && Fs.readable n
      then ret (inl (map (fun j => (List.last j "", Fs.is_dir f j)) (Fs.read_dir f (K p))))
      else ret (inr ("open " +:+ p +:+ ": not a directory or permission denied"))
  | None => ret (inr ("open " +:+ p +:+ ": no such file or directory"))
  end.

(** [filepath.Glob(filepath.Join(dir, "*.so"))] for a [dir] without
    pattern characters: the entries of [dir] whose name ends in [.so];
    I/O errors give no matches. *)
Definition filepath_Glob_so (dir : string) : M (list string) :=
  event (EvGlob (K dir)) ;;
  f <- get fs ;;
  match Fs.stat f (K dir) with
  | Some n =>
      if n_dir n && Fs.readable n
      then ret (map (fun j => Filepath.Join dir (List.last j ""))
                    (filter (fun j => Strings.HasSuffix (List.last j "") ".so" = true)
                            (Fs.read_dir f (K dir))))
      else ret []
  | None => ret []
  end.

Definition filepath_Walk {St}
  (root : string) (fn : string -> option node -> option string -> St -> St * WalkRet)
  (st : St) : M (St * option string) :=
  event (EvWalk (K root)) ;;
  f <- get fs ;;
  ret (walk fn f root st).

(** [zip.OpenReader]; [None] is an error. *)
Definition zip_OpenReader (p : string) : M (option (list ZipFile)) :=
  event (EvZipOpen p) ;;
  f <- get fs ;;
  now <- get clock ;;
  ret (zip_reader E now f p).

(** [exec.Command(...).CombinedOutput()] with [cmd.Dir = dir]; the command
    may change the file system. *)
Definition exec_run (dir : string) (args : list string) (r : Z -> FS -> ExecResult)
  : M ExecResult :=
  event (EvExec dir args) ;;
  f <- get fs ;;
  now <- get clock ;;
  modify (set_fs (fun _ => x_fs (r now f))) ;;
  ret (r now f).

(** [plugin.Open] *)
Definition plugin_Open (p : string) : M (Handle + string) :=
  event (EvPluginOpen p) ;;
  f <- get fs ;;
  now <- get clock ;;
  ret (dl_open E now f p).

(** Calling the constructor found under ["NewPlugin"]; [None] is [nil]. *)
Definition call_NewPlugin (h : Handle) : M (option Plugin) :=
  now <- get clock ;;
  event (EvNewPlugin h (new_plugin E now h)) ;;
  ret (new_plugin E now h).

Definition call_Initialize (p : Plugin) : M (option string) :=
  now <- get clock ;;
  event (EvInitialize p) ;;
  ret (Initialize E now p).

Definition call_Shutdown (p : Plugin) : M (option string) :=
  now <- get clock ;;
  event (EvShutdown p) ;;
  ret (Shutdown E now p).

Definition log_Printf (msg : string) : M unit := event (EvLog msg).
Definition fmt_Printf (msg : string) : M unit := event (EvPrint msg).

(** *** [sync.RWMutex] *)

Definition mu_Lock : M unit := fun s =>
  match mu (mgr s) with
  | Free => Done tt (emit EvLock (set_mgr (set_mu WLocked) s))
  | _ => Blocked s
  end.

Definition mu_Unlock : M unit := fun s =>
  match mu (mgr s) with
  | WLocked => Done tt (emit EvUnlock (set_mgr (set_mu Free) s))
  | _ => Panicked s
  end.

Definition mu_RLock : M unit := fun s =>
  match mu (mgr s) with
  | Free => Done tt (emit EvRLock (set_mgr (set_mu (RLocked 1)) s))
  | RLocked n => Done tt (emit EvRLock (set_mgr (set_mu (RLocked (S n))) s))
  | WLocked => Blocked s
  end.

Definition mu_RUnlock : M unit := fun s =>
  match mu (mgr s) with
  | RLocked 1 => Done tt (emit EvRUnlock (set_mgr (set_mu Free) s))
  | RLocked (S (S n)) => Done tt (emit EvRUnlock (set_mgr (set_mu (RLocked (S n))) s))
  | _ => Panicked s
  end.

(** [m.mu.Lock(); defer m.mu.Unlock()] around the rest of a method. *)
Definition with_Lock {A} (body : M A) : M A :=
mu_Lock ;; result <- body ;; mu_Unlock ;; ret result.

(** [m.mu.RLock(); defer m.mu.RUnlock()] *)
Definition with_RLock {A} (body : M A) : M A :=
mu_RLock ;; result <- body ;; mu_RUnlock ;; ret result.

(** *** Go maps of type [map[string]Plugin], by reference *)

Definition map_read (l : nat) (s : State) : gmap string Plugin :=
  default ∅ (heap s !! l).

(** [v, ok := m[k]] *)
Definition map_get (l : nat) (k : string) : M (option Plugin) :=
  fun s => Done (map_read l s !! k) s.

(** [m[k] = v]; assignment to a nil map panics. *)
Definition map_set (l : nat) (k : string) (v : Plugin) : M unit := fun s =>
  match heap s !! l with
  | Some m => Done tt (set_heap (fun h => <[l := <[k := v]> m]> h) s)
  | None => Panicked s
  end.

(** [delete(m, k)] *)
Definition map_delete (l : nat) (k : string) : M unit :=
  modify (set_heap (fun h => match h !! l with
                             | Some m => <[l := delete k m]> h
                             | None => h
                             end)).

(** [make(map[string]Plugin)] *)
Definition map_make : M nat := fun s =>
  Done (length (heap s)) (set_heap (fun h => (h ++ [∅])%list) s).

(** The pairs a [range] loop goes through. *)
Definition map_range (l : nat) : M (list (string * Plugin)) :=
  fun s => Done (map_to_list (map_read l s)) s.

(* ------------------------------------------------------------------- *)
(** *** extractor.go *)
(* ------------------------------------------------------------------- *)

Definition the_extractor (s : State) : Extractor := extractor (loader (mgr s)).
Definition the_compiler (s : State) : Compiler := compiler (loader (mgr s)).
Definition the_loader (s : State) : Loader := loader (mgr s).

(** [Extractor.extractFile] *)
Definition extractFile (file : ZipFile) (destDir : string) : M (option string) :=
  let cleanPath := Filepath.Clean (zf_Name file) in
  if Strings.Contains cleanPath ".." then
    ret (Some ("invalid file path: " +:+ zf_Name file))
  else
    let destPath := Filepath.Join destDir cleanPath in
    if zf_IsDir file then os_MkdirAll destPath (zf_Mode file)
    else
      err <- os_MkdirAll (Filepath.Dir destPath) 493 ;;
      match err with
      | Some e => ret (Some e)
      | None =>
          if zf_open_fails file then ret (Some "zip: unsupported compression algorithm")
          else
            err <- os_OpenFile destPath (zf_Mode file) ;;
            match err with
            | Some e => ret (Some e)
            | None => io_Copy destPath (zf_Size file) (zf_copy_fails file)
            end
      end.

(** [Extractor.ExtractZipPlugin] *)
Definition ExtractZipPlugin (zipPath pluginName : string) : M (string * option string) :=
  e <- get the_extractor ;;
  let pluginDir := Filepath.Join (basePluginDir e) pluginName in
  err <- os_RemoveAll pluginDir ;;
  match err with
  | Some e => ret ("", Some ("failed to clean plugin directory: " +:+ e))
  | None =>
      err <- os_MkdirAll pluginDir 493 ;;
      match err with
      | Some e => ret ("", Some ("failed to create plugin directory: " +:+ e))
      | None =>
          reader <- zip_OpenReader zipPath ;;
          match reader with
          | None => ret ("", Some ("failed to open zip file: zip: not a valid zip file"))
          | Some files =>
              err <- for_each (fun file =>
                       err <- extractFile file pluginDir ;;
                       match err with
                       | Some e => ret (Some ("failed to extract file " +:+ zf_Name file
                                              +:+ ": " +:+ e))
                       | None => ret None
                       end) files ;;
              match err with
              | Some e => ret ("", Some e)
              | None => ret (pluginDir, None)
              end
          end
      end
  end.

(** [Extractor.generateManifest] *)
Definition generateManifest (pluginDir : string) : M (option string) :=
  let manifest :=
    "{" +:+ nl +:+
    "  " +:+ q "name" +:+ ": " +:+ q (Filepath.Base pluginDir) +:+ "," +:+ nl +:+
    "  " +:+ q "version" +:+ ": " +:+ q "1.0.0" +:+ "," +:+ nl +:+
    "  " +:+ q "description" +:+ ": " +:+ q "Auto-generated plugin" +:+ "," +:+ nl +:+
    "  " +:+ q "author" +:+ ": " +:+ q "Unknown" +:+ "," +:+ nl +:+
    "  " +:+ q "main" +:+ ": " +:+ q "main.go" +:+ "," +:+ nl +:+
    "  " +:+ q "dependencies" +:+ ": {" +:+ nl +:+
    "    " +:+ q "go" +:+ ": " +:+ q "1.21" +:+ nl +:+
    "  }" +:+ nl +:+ "}" in
  let manifestPath := Filepath.Join pluginDir "plugin.json" in
  os_WriteFile manifestPath (Z.of_nat (String.length manifest)) 420.

(** [Extractor.ValidatePluginStructure] *)
Definition ValidatePluginStructure (pluginDir : string) : M (option string) :=
  let mainFile := Filepath.Join pluginDir "main.go" in
  st <- os_Stat mainFile ;;
  match st with
  | None => ret (Some "plugin must contain main.go file")
  | Some _ =>
      let manifestFile := Filepath.Join pluginDir "plugin.json" in
      st <- os_Stat manifestFile ;;
      match st with
      | None => generateManifest pluginDir
      | Some _ => ret None
      end
  end.

(* ------------------------------------------------------------------- *)
(** *** compiler.go *)
(* ------------------------------------------------------------------- *)

(** [Compiler.createGoMod] *)
Definition createGoMod (pluginDir pluginName : string) : M (option string) :=
let goModContent :=
  "module " +:+ pluginName +:+ nl +:+ nl +:+ "go 1.21" +:+ nl +:+ nl +:+
  "require (" +:+ nl +:+
  "	github.com/gin-gonic/gin v1.9.1" +:+ nl +:+
  "	go.mongodb.org/mongo-driver v1.12.1" +:+ nl +:+ ")" +:+ nl in
let goModPath := Filepath.Join pluginDir "go.mod" in
os_WriteFile goModPath (Z.of_nat (String.length goModContent)) 420.

(** [Compiler.ensureGoMod] *)
Definition ensureGoMod (pluginDir pluginName : string) : M (option string) :=
c <- get the_compiler ;;
let goModPath := Filepath.Join pluginDir "go.mod" in
st <- os_Stat goModPath ;;
err <- match st with
       | None => createGoMod pluginDir pluginName
       | Some _ => ret None
       end ;;
match err with
| Some e => ret (Some e)
| None =>
    r <- exec_run pluginDir [goPath c; "mod"; "tidy"]
           (fun now f => go_mod_tidy E now f pluginDir) ;;
    match x_err r with
    | Some e => ret (Some ("go mod tidy failed: " +:+ e +:+ nl +:+ "Output: " +:+ x_out r))
    | None => ret None
    end
end.

(** [Compiler.CompilePlugin] *)
Definition CompilePlugin (pluginDir pluginName : string) : M (string * option string) :=
c <- get the_compiler ;;
err <- os_MkdirAll (c_buildDir c) 493 ;;
match err with
| Some e => ret ("", Some ("failed to create build directory: " +:+ e))
| None =>
    let outputFile := Filepath.Join (c_buildDir c) (pluginName +:+ ".so") in
    os_Remove outputFile ;;
    err <- ensureGoMod pluginDir pluginName ;;
    match err with
    | Some e => ret ("", Some ("failed to setup go module: " +:+ e))
    | None =>
        r <- exec_run pluginDir
               [goPath c; "build"; "-buildmode=plugin"; "-o"; outputFile; "."]
               (fun now f => go_build E now f pluginDir outputFile) ;;
        match x_err r with
        | Some e =>
            ret ("", Some ("compilation failed: " +:+ e +:+ nl +:+ "Output: " +:+ x_out r))
        | None =>
            st <- os_Stat outputFile ;;
            match st with
            | None =>
                ret ("", Some ("compilation succeeded but output file not found: "
                               +:+ outputFile))
            | Some _ => ret (outputFile, None)
            end
        end
    end
end.

(** The files [needsRecompilation] looks at. *)
Definition is_source (p : string) : bool :=
Strings.HasSuffix p ".go" || Strings.HasSuffix p "go.mod" || Strings.HasSuffix p "go.sum".

(** The callback of [needsRecompilation]; the captured [needsRecompile] is
    the state.  [info] is present whenever [err] is nil. *)
Definition recompile_fn (targetTime : Z)
  (p : string) (info : option node) (err : option string) (needsRecompile : bool)
  : bool * WalkRet :=
match err with
| Some e => (needsRecompile, WalkErr e)
| None =>
    if is_source p then
      if match info with Some i => (targetTime <? n_mtime i)%Z | None => false end
      then (true, WalkSkipDir)
      else (needsRecompile, WalkNil)
    else (needsRecompile, WalkNil)
end.

(** [Compiler.needsRecompilation] *)
Definition needsRecompilation (pluginDir : string) (targetTime : Z)
  : M (bool * option string) :=
filepath_Walk pluginDir (recompile_fn targetTime) false.

(** [Compiler.CompileWithCache] *)
Definition CompileWithCache (pluginDir pluginName : string)
  : M (string * bool * option string) :=
c <- get the_compiler ;;
let outputFile := Filepath.Join (c_buildDir c) (pluginName +:+ ".so") in
soInfo <- os_Stat outputFile ;;
match soInfo with
| None =>
    r <- CompilePlugin pluginDir pluginName ;;
    ret (fst r, true, snd r)
| Some info =>
    r <- needsRecompilation pluginDir (n_mtime info) ;;
    match snd r with
    | Some e => ret ("", false, Some e)
    | None =>
        if fst r then
          r <- CompilePlugin pluginDir pluginName ;;
          ret (fst r, true, snd r)
        else ret (outputFile, false, None)
    end
end.

(** [Compiler.ValidateCompilation] *)
Definition ValidateCompilation (soPath : string) : M (option string) :=
c <- get the_compiler ;;
r <- exec_run "" [goPath c; "tool"; "objdump"; "-t"; soPath]
       (fun now f => go_objdump E now f soPath) ;;
match x_err r with
| Some _ => ret (Some ("plugin validation failed: " +:+ x_out r))
| None =>
    if negb (Strings.Contains (x_out r) "NewPlugin")
    then ret (Some "plugin does not export required NewPlugin function")
    else ret None
end.

(* ------------------------------------------------------------------- *)
(** *** loader.go *)
(* ------------------------------------------------------------------- *)

(** [Loader.isPluginSupported] *)
Definition isPluginSupported : bool :=
let supportedOS : gmap string bool :=
  <["linux" := true]> (<["darwin" := true]> (<["freebsd" := true]> ∅)) in
default false (supportedOS !! GOOS E).

(** [Loader.GetSupportedPlatforms] *)
Definition GetSupportedPlatforms : list string := ["linux"; "darwin"; "freebsd"].

(** [Loader.getPluginNameFromPath] *)
Definition getPluginNameFromPath (p : string) : string :=
Strings.TrimSuffix (Filepath.Base p) ".so".

(** The part shared by [LoadPluginFromFile] and [loadCompiledPlugin]:
    open the module, record the handle, look the constructor up, check its
    type, call it. *)
Definition open_and_construct (p : string) : M (Plugin + string) :=
r <- plugin_Open p ;;
match r with
| inr e => ret (inr ("failed to open plugin " +:+ p +:+ ": " +:+ e))
| inl h =>
    let pluginName := getPluginNameFromPath p in
    modify (set_mgr (set_loadedPlugins (fun m => <[pluginName := h]> m))) ;;
    match dl_lookup E h with
    | SymMissing e =>
        ret (inr ("plugin " +:+ p +:+ " must export 'NewPlugin' function: " +:+ e))
    | SymWrongType =>
        ret (inr ("NewPlugin in " +:+ p
                  +:+ " must be a function that returns Plugin interface"))
    | SymConstructor =>
        pluginInstance <- call_NewPlugin h ;;
        match pluginInstance with
        | None => ret (inr ("NewPlugin function in " +:+ p +:+ " returned nil"))
        | Some i => ret (inl i)
        end
    end
end.

(** [Loader.LoadPluginFromFile] *)
Definition LoadPluginFromFile (p : string) : M (option string) :=
if negb isPluginSupported then
  ret (Some ("plugins are not supported on " +:+ GOOS E +:+ "/" +:+ GOARCH E))
else
  st <- os_Stat p ;;
  match st with
  | None => ret (Some ("plugin file not found: " +:+ p))
  | Some _ =>
      r <- open_and_construct p ;;
      match r with
      | inr e => ret (Some e)
      | inl _ => ret None
      end
  end.

(** [Loader.loadCompiledPlugin] *)
Definition loadCompiledPlugin (soPath : string) : M (Plugin + string) :=
open_and_construct soPath.

(** [Loader.LoadPluginFromDirectory] *)
Definition LoadPluginFromDirectory (pluginName : string) : M (Plugin + string) :=
l <- get the_loader ;;
let pluginDir := Filepath.Join (pluginDir l) pluginName in
st <- os_Stat pluginDir ;;
match st with
| None => ret (inr ("plugin directory not found: " +:+ pluginDir))
| Some _ =>
    r <- CompileWithCache pluginDir pluginName ;;
    match snd r with
    | Some e => ret (inr ("failed to compile plugin: " +:+ e))
    | None => loadCompiledPlugin (fst (fst r))
    end
end.

(** [Loader.InstallFromZip] *)
Definition InstallFromZip (zipPath pluginName : string) : M (option string) :=
r <- ExtractZipPlugin zipPath pluginName ;;
match snd r with
| Some e => ret (Some ("failed to extract plugin: " +:+ e))
| None =>
    let pluginDir := fst r in
    err <- ValidatePluginStructure pluginDir ;;
    match err with
    | Some e =>
        os_RemoveAll pluginDir ;;
        ret (Some ("invalid plugin structure: " +:+ e))
    | None =>
        c <- CompileWithCache pluginDir pluginName ;;
        let soPath := fst (fst c) in
        let recompiled := snd (fst c) in
        match snd c with
        | Some e =>
            os_RemoveAll pluginDir ;;
            ret (Some ("failed to compile plugin: " +:+ e))
        | None =>
            err <- ValidateCompilation soPath ;;
            match err with
            | Some e =>
                os_RemoveAll pluginDir ;;
                os_Remove soPath ;;
                ret (Some ("plugin compilation validation failed: " +:+ e))
            | None =>
                err <- LoadPluginFromFile soPath ;;
                match err with
                | Some e =>
                    os_RemoveAll pluginDir ;;
                    os_Remove soPath ;;
                    ret (Some ("failed to load compiled plugin: " +:+ e))
                | None =>
                    os_Remove zipPath ;;
                    (if recompiled
                     then fmt_Printf ("Plugin " +:+ pluginName
                                      +:+ " installed and compiled successfully" +:+ nl)
                     else fmt_Printf ("Plugin " +:+ pluginName
                                      +:+ " installed (using cached build)" +:+ nl)) ;;
                    ret None
                end
            end
        end
    end
end.

(** [PluginValidationResult] of loader.go *)
Record PluginValidationResult := mk_validation {
  IsValid : bool;
  Errors : list string;
  Warnings : list string
}.

(** The loop bodies of [LoadAllPlugins] carry the result map and the
    collected error lines. *)
Definition load_dir_entry (acc : gmap string Plugin * list string) (entry : string * bool)
  : M (gmap string Plugin * list string) :=
let '(name, isDir) := entry in
if negb isDir || Strings.HasPrefix name "." then ret acc
else
  r <- LoadPluginFromDirectory name ;;
  match r with
  | inr e => ret (fst acc, (snd acc ++ [name +:+ ": " +:+ e])%list)
  | inl pluginInstance =>
      let info := GetInfo E pluginInstance in
      ret (<[Name info := pluginInstance]> (fst acc), snd acc)
  end.

Definition load_so_file (acc : gmap string Plugin * list string) (soPath : string)
  : M (gmap string Plugin * list string) :=
let pluginName := getPluginNameFromPath soPath in
match fst acc !! pluginName with
| Some _ => ret acc
| None =>
    r <- loadCompiledPlugin soPath ;;
    match r with
    | inr e => ret (fst acc, (snd acc ++ [pluginName +:+ ": " +:+ e])%list)
    | inl pluginInstance =>
        let info := GetInfo E pluginInstance in
        ret (<[Name info := pluginInstance]> (fst acc), snd acc)
    end
end.

(** [Loader.LoadAllPlugins]; a nil map is returned as the empty map. *)
Definition LoadAllPlugins : M (gmap string Plugin * option string) :=
l <- get the_loader ;;
err <- os_MkdirAll (pluginDir l) 493 ;;
match err with
| Some e => ret (∅, Some ("failed to create plugin directory: " +:+ e))
| None =>
    entries <- os_ReadDir (pluginDir l) ;;
    match entries with
    | inr e => ret (∅, Some ("failed to read plugin directory: " +:+ e))
    | inl entries =>
        acc <- foldM load_dir_entry entries (∅, []) ;;
        soFiles <- filepath_Glob_so (pluginDir l) ;;
        acc <- foldM load_so_file soFiles acc ;;
        if (0 <? length (snd acc))%nat
        then ret (fst acc, Some ("failed to load some plugins:" +:+ nl
                                 +:+ Strings.Join (snd acc) nl))
        else ret (fst acc, None)
    end
end.

Definition max_zip_size : Z := 100 * 1024 * 1024.

(** [Loader.ValidateZipPlugin]; the error it returns is always nil. *)
Definition ValidateZipPlugin (zipPath : string)
  : M (PluginValidationResult * option string) :=
if negb (Strings.HasSuffix (Strings.ToLower zipPath) ".zip") then
  ret (mk_validation false ["File must be a .zip archive"] [], None)
else
  info <- os_Stat zipPath ;;
  match info with
  | None =>
      ret (mk_validation false
             ["Cannot access file: stat " +:+ zipPath +:+ ": no such file or directory"] [],
           None)
  | Some info =>
      if (max_zip_size <? n_size info)%Z then
        ret (mk_validation false ["Plugin file too large (max 100MB)"] [], None)
      else if (n_size info =? 0)%Z then
        ret (mk_validation false ["Plugin file is empty"] [], None)
      else ret (mk_validation true [] [], None)
  end.

(** [Loader.UninstallPlugin] *)
Definition Loader_UninstallPlugin (pluginName : string) : M (option string) :=
l <- get the_loader ;;
let pluginDir := Filepath.Join (pluginDir l) pluginName in
let soPath := Filepath.Join (buildDir l) (pluginName +:+ ".so") in
err <- os_RemoveAll pluginDir ;;
match err with
| Some e => ret (Some ("failed to remove plugin directory: " +:+ e))
| None =>
    os_Remove soPath ;;
    modify (set_mgr (set_loadedPlugins (fun m => delete pluginName m))) ;;
    ret None
end.

(** [Loader.RecompilePlugin] *)
Definition RecompilePlugin (pluginName : string) : M (option string) :=
l <- get the_loader ;;
let pluginDir := Filepath.Join (pluginDir l) pluginName in
let soPath := Filepath.Join (buildDir l) (pluginName +:+ ".so") in
os_Remove soPath ;;
r <- CompilePlugin pluginDir pluginName ;;
ret (snd r).

(* ------------------------------------------------------------------- *)
(** *** manager.go *)
(* ------------------------------------------------------------------- *)

Definition the_plugins (s : State) : nat := plugins (mgr s).

(** [Manager.registerPluginRoutes] *)
Definition registerPluginRoutes (name : string) (plugin : Plugin) : M unit :=
r <- get (fun s => router (mgr s)) ;;
if negb r then ret tt
else event (EvRegisterRoutes ("/plugins" +:+ "/" +:+ Strings.ToLower name) plugin).

(** [m.plugins[info.Name] = pluginInstance; m.pluginPaths[info.Name] = pluginName] *)
Definition store_plugin (name : string) (pluginInstance : Plugin) (pluginPath : string)
  : M unit :=
l <- get the_plugins ;;
map_set l name pluginInstance ;;
modify (set_mgr (set_pluginPaths (fun m => <[name := pluginPath]> m))).

(** [Manager.InstallPluginFromZip] *)
Definition InstallPluginFromZip (zipPath pluginName : string) : M (option string) :=
with_Lock (
  v <- ValidateZipPlugin zipPath ;;
  match snd v with
  | Some e => ret (Some ("validation error: " +:+ e))
  | None =>
      if negb (IsValid (fst v)) then
        ret (Some ("invalid plugin: " +:+ Strings.Join (Errors (fst v)) ", "))
      else
        l <- get the_plugins ;;
        existing <- map_get l pluginName ;;
        match existing with
        | Some _ => ret (Some ("plugin " +:+ pluginName +:+ " is already installed"))
        | None =>
            err <- InstallFromZip zipPath pluginName ;;
            match err with
            | Some e => ret (Some ("installation failed: " +:+ e))
            | None =>
                r <- LoadPluginFromDirectory pluginName ;;
                match r with
                | inr e => ret (Some ("failed to load installed plugin: " +:+ e))
                | inl pluginInstance =>
                    d <- get (fun s => deps (mgr s)) ;;
                    err <- (if d then call_Initialize pluginInstance else ret None) ;;
                    match err with
                    | Some e =>
                        Loader_UninstallPlugin pluginName ;;
                        ret (Some ("failed to initialize plugin " +:+ pluginName
                                   +:+ ": " +:+ e))
                    | None =>
                        let info := GetInfo E pluginInstance in
                        store_plugin (Name info) pluginInstance pluginName ;;
                        registerPluginRoutes (Name info) pluginInstance ;;
                        log_Printf ("Plugin installed and loaded: " +:+ Name info
                                    +:+ " v" +:+ Version info) ;;
                        ret None
                    end
                end
            end
        end
  end).

(** The body of the loop of [Manager.LoadPlugins]. *)
Definition init_and_store (entry : string * Plugin) : M unit :=
let '(name, plugin) := entry in
d <- get (fun s => deps (mgr s)) ;;
err <- (if d then call_Initialize plugin else ret None) ;;
match err with
| Some e => log_Printf ("Failed to initialize plugin " +:+ name +:+ ": " +:+ e)
| None =>
    store_plugin name plugin name ;;
    log_Printf ("Loaded plugin: " +:+ Name (GetInfo E plugin)
                +:+ " v" +:+ Version (GetInfo E plugin))
end.

(** [Manager.LoadPlugins]; the loop goes through the loaded map in the
    order of [map_to_list]. *)
Definition LoadPlugins (dir : string) : M (option string) :=
with_Lock (
  r <- LoadAllPlugins ;;
  match snd r with
  | Some e => log_Printf ("Warning: " +:+ e)
  | None => ret tt
  end ;;
  foldM (fun _ entry => init_and_store entry) (map_to_list (fst r)) tt ;;
  ret None).

(** [Manager.LoadPlugin] *)
Definition LoadPlugin (pluginName : string) : M (option string) :=
with_Lock (
  l <- get the_plugins ;;
  existing <- map_get l pluginName ;;
  match existing with
  | Some _ => ret (Some ("plugin " +:+ pluginName +:+ " is already loaded"))
  | None =>
      r <- LoadPluginFromDirectory pluginName ;;
      match r with
      | inr e => ret (Some ("failed to load plugin " +:+ pluginName +:+ ": " +:+ e))
      | inl pluginInstance =>
          d <- get (fun s => deps (mgr s)) ;;
          err <- (if d then call_Initialize pluginInstance else ret None) ;;
          match err with
          | Some e =>
              ret (Some ("failed to initialize plugin " +:+ pluginName +:+ ": " +:+ e))
          | None =>
              let info := GetInfo E pluginInstance in
              store_plugin (Name info) pluginInstance pluginName ;;
              registerPluginRoutes (Name info) pluginInstance ;;
              log_Printf ("Loaded plugin: " +:+ Name info +:+ " v" +:+ Version info) ;;
              ret None
          end
      end
  end).

(** [Manager.UnloadPlugin] *)
Definition UnloadPlugin (name : string) : M (option string) :=
with_Lock (
  l <- get the_plugins ;;
  plugin <- map_get l name ;;
  match plugin with
  | None => ret (Some ("plugin " +:+ name +:+ " not found"))
  | Some plugin =>
      err <- call_Shutdown plugin ;;
      match err with
      | Some e => log_Printf ("Error shutting down plugin " +:+ name +:+ ": " +:+ e)
      | None => ret tt
      end ;;
      map_delete l name ;;
      modify (set_mgr (set_pluginPaths (fun m => delete name m))) ;;
      log_Printf ("Unloaded plugin: " +:+ name) ;;
      ret None
  end).

(** [Manager.UninstallPlugin] *)
Definition UninstallPlugin (name : string) : M (option string) :=
l <- get the_plugins ;;
existing <- map_get l name ;;
err <- match existing with
       | Some _ =>
           err <- UnloadPlugin name ;;
           match err with
           | Some e => ret (Some ("failed to unload plugin: " +:+ e))
           | None => ret None
           end
       | None => ret None
       end ;;
match err with
| Some e => ret (Some e)
| None =>
    err <- Loader_UninstallPlugin name ;;
    match err with
    | Some e => ret (Some ("failed to uninstall plugin: " +:+ e))
    | None =>
        log_Printf ("Uninstalled plugin: " +:+ name) ;;
        ret None
    end
end.

(** [Manager.ReloadPlugin] *)
Definition ReloadPlugin (name : string) : M (option string) :=
mu_RLock ;;
pluginPath <- get (fun s => pluginPaths (mgr s) !! name) ;;
mu_RUnlock ;;
match pluginPath with
| None => ret (Some ("plugin " +:+ name +:+ " not found"))
| Some pluginPath =>
    err <- UnloadPlugin name ;;
    match err with
    | Some e => ret (Some ("failed to unload plugin: " +:+ e))
    | None =>
        err <- RecompilePlugin pluginPath ;;
        match err with
        | Some e => ret (Some ("failed to recompile plugin: " +:+ e))
        | None => LoadPlugin pluginPath
        end
    end
end.

(** [Manager.GetPlugin] *)
Definition GetPlugin (name : string) : M (option Plugin) :=
with_RLock (
  l <- get the_plugins ;;
  map_get l name).

(** [Manager.GetAllPlugins]: the reference to the new map is returned. *)
Definition GetAllPlugins : M nat :=
with_RLock (
  copy <- map_make ;;
  l <- get the_plugins ;;
  kvs <- map_range l ;;
  foldM (fun _ kv => map_set copy (fst kv) (snd kv)) kvs tt ;;
  ret copy).

(** [Manager.HotReload] *)
Definition HotReload : M (option string) :=
with_Lock (
  log_Printf "Starting hot reload of all plugins..." ;;
  l <- get the_plugins ;;
  kvs <- map_range l ;;
  let pluginNames := map fst kvs in
  foldM (fun _ name =>
           err <- UnloadPlugin name ;;
           match err with
           | Some e => log_Printf ("Error unloading plugin " +:+ name
                                   +:+ " during hot reload: " +:+ e)
           | None => ret tt
           end) pluginNames tt ;;
  err <- LoadPlugins "./plugins" ;;
  match err with
  | Some e =>
      log_Printf ("Error during hot reload: " +:+ e) ;;
      ret (Some e)
  | None =>
      n <- get (fun s => size (map_read (the_plugins s) s)) ;;
      log_Printf ("Hot reload completed. Loaded " +:+ pretty n +:+ " plugins.") ;;
      ret None
  end).

End Program.

(** [NewManager()]: empty registry, loader on ["./plugins"]. *)
Definition NewLoader (dir : string) : Loader :=
let buildDir := Filepath.Join dir ".build" in
mk_loader ∅ dir buildDir (mk_extractor dir) (mk_compiler buildDir "go").

Definition NewManager (f : FS) (now : Z) : State :=
mk_state f now [] [∅] (mk_manager 0 ∅ (NewLoader "./plugins") false Free false).

(* ===================================================================== *)
(** ** Properties the statements are written with *)
(* ===================================================================== *)

(** The events a call added to the trace. *)
Definition added (s s' : State) : list Event := drop (length (trace s)) (trace s').

(** The registry: the map [m.plugins] refers to. *)
Definition registry (s : State) : gmap string Plugin := map_read (plugins (mgr s)) s.

(** The archive path has the extension [.zip], in any case. *)
Definition has_zip_extension (p : string) : bool :=
Strings.HasSuffix (Strings.ToLower p) ".zip".

(** The three reasons for which an archive is said to be invalid. *)
Definition invalid_for_extension_or_size (f : FS) (p : string) : Prop :=
has_zip_extension p = false ∨
(∃ n, Fs.stat_path f p = Some n ∧ max_zip_size < n_size n) ∨
(∃ n, Fs.stat_path f p = Some n ∧ n_size n = 0).

(** The four reasons for which [ValidateZipPlugin] rejects one. *)
Definition rejected_archive (f : FS) (p : string) : Prop :=
has_zip_extension p = false ∨
Fs.stat_path f p = None ∨
(∃ n, Fs.stat_path f p = Some n ∧ max_zip_size < n_size n) ∨
(∃ n, Fs.stat_path f p = Some n ∧ n_size n = 0).

(** The result of [ValidateZipPlugin], computed from the file system. *)
Definition validation_of (f : FS) (p : string) : PluginValidationResult :=
  if negb (has_zip_extension p) then mk_validation false ["File must be a .zip archive"] []
  else match Fs.stat_path f p with
       | None =>
           mk_validation false
             ["Cannot access file: stat " +:+ p +:+ ": no such file or directory"] []
       | Some info =>
           if (max_zip_size <? n_size info)%Z
           then mk_validation false ["Plugin file too large (max 100MB)"] []
           else if (n_size info =? 0)%Z
                then mk_validation false ["Plugin file is empty"] []
                else mk_validation true [] []
       end.

(* --------------------------------------------------------------------- *)
(** *** Concrete hosts and states used in examples *)
(* --------------------------------------------------------------------- *)

(** An archive with one source file. *)
Definition demo_zip : list ZipFile :=
[mk_zip "main.go" false 420 900 false false].

(** A host on which everything works: the archive at [up/demo.zip] opens,
    the toolchain leaves the module at the [-o] path, the module exports a
    constructor.  The constructor hands out object [7] before time
    [nil_from] and nil from then on; [Initialize] and [Shutdown] succeed. *)
Definition demo_env (os : string) (nil_from : Z) : Env :=
mk_env os "amd64"
  (fun _ _ p => if String.eqb p "up/demo.zip" then Some demo_zip else None)
  (fun _ f _ => mk_exec None "" f)
  (fun now f _ out =>
     mk_exec None "" (<[Filepath.path_key out := mk_node false 4096 now 493]> f))
  (fun _ f _ => mk_exec None "T NewPlugin" f)
  (fun _ _ _ => inl 1%nat)
  (fun _ => SymConstructor)
  (fun now _ => if (now <? nil_from)%Z then Some (Z.to_nat now) else None)
  (fun _ => mk_info "demo" "1.0.0" "" "" "")
  (fun _ _ => None)
  (fun _ _ => None).

(** A file system holding the uploaded archive. *)
Definition upload_fs : FS :=
<[["up"; "demo.zip"] := mk_node false 2048 5 420]> (<[["up"] := mk_node true 0 1 493]> ∅).

Definition fresh_state : State := NewManager upload_fs 10.

(** A state with plugin [p] registered under [name], from directory [dir]. *)
Definition with_plugin (name dir : string) (p : Plugin) (s : State) : State :=
set_mgr (set_pluginPaths (fun m => <[name := dir]> m))
  (set_heap (fun h => <[plugins (mgr s) := <[name := p]> (map_read (plugins (mgr s)) s)]> h) s).

Definition demo_installed : State := with_plugin "demo" "demo" 7%nat fresh_state.

(** Three plugins loaded, two plugin directories on disk. *)
Definition two_dirs_fs : FS :=
<[["plugins"; "alpha"; "main.go"] := mk_node false 900 3 420]>
(<[["plugins"; "alpha"] := mk_node true 0 2 493]>
(<[["plugins"; "beta"; "main.go"] := mk_node false 900 3 420]>
(<[["plugins"; "beta"] := mk_node true 0 2 493]>
(<[["plugins"] := mk_node true 0 1 493]> ∅)))).

Definition three_loaded : State :=
with_plugin "alpha" "alpha" 1%nat
  (with_plugin "beta" "beta" 2%nat
     (with_plugin "gamma" "gamma" 3%nat (NewManager two_dirs_fs 10))).

Definition is_shutdown (e : Event) : bool :=
match e with EvShutdown _ => true | _ => false end.

(* --------------------------------------------------------------------- *)
(** *** Footprints *)
(* --------------------------------------------------------------------- *)

Definition is_lock_event (e : Event) : bool :=
match e with
| EvLock | EvUnlock | EvRLock | EvRUnlock => true
| _ => false
end.

(** What Extractor, Compiler and Loader do: system calls, commands, the
    dynamic loader, constructor calls, printing. *)
Definition loader_event (e : Event) : bool :=
match e with
| EvLock | EvUnlock | EvRLock | EvRUnlock
| EvInitialize _ | EvShutdown _ | EvRegisterRoutes _ _ | EvLog _ => false
| _ => true
end.

(** What happens inside a critical section of the Manager apart from
    unloading: anything but lock operations and [Shutdown]. *)
Definition section_event (e : Event) : bool :=
negb (is_lock_event e) && negb (is_shutdown e).

(** The trace grew by events satisfying [P]; time did not go back. *)
Definition grew (P : Event -> bool) (s s' : State) : Prop :=
clock s <= clock s' ∧ ∃ d, trace s' = trace s ++ d ∧ Forall (fun e => P e = true) d.

(** The managers differ in the loader's handle table at most. *)
Definition same_but_loaded (m m' : Manager) : Prop :=
∃ lp, m' = set_loadedPlugins (fun _ => lp) m.

(** The footprint of Extractor, Compiler and Loader code. *)
Definition loader_rel (s s' : State) : Prop :=
heap s' = heap s ∧ same_but_loaded (mgr s) (mgr s') ∧ grew loader_event s s'.

(** The footprint of code that leaves the lock and the registry reference
    alone and only causes events in [P]. *)
Definition held_rel (P : Event -> bool) (s s' : State) : Prop :=
mu (mgr s') = mu (mgr s) ∧ plugins (mgr s') = plugins (mgr s) ∧ grew P s s'.

Definition section_rel : State -> State -> Prop := held_rel section_event.

Definition no_lock_event (e : Event) : bool := negb (is_lock_event e).

(** No assumption on the start state. *)
Definition always (s : State) : Prop := True.

(** The registry map exists ([NewManager] makes it). *)
Definition allocated (s : State) : Prop := is_Some (heap s !! plugins (mgr s)).

(** Started in a state satisfying [I], [m] returns: it neither blocks nor
    panics; its end state is related to its start by [R] and satisfies [I]. *)
Definition steps (I : State -> Prop) (R : State -> State -> Prop) {A} (m : M A) : Prop :=
∀ s, I s →
     match m s with
     | Done _ s' => R s s' ∧ I s'
     | Blocked _ | Panicked _ => False
     end.

(** The trace of a critical section: [Lock], events that are no lock
    operation, [Unlock]. *)
Definition under_lock (d : list Event) : bool :=
match d with
| EvLock :: rest =>
    match reverse rest with
    | EvUnlock :: mid => forallb (fun e => negb (is_lock_event e)) mid
    | _ => false
    end
| _ => false
end.

(** The method returns, and has held the exclusive lock from its first
    event to its last. *)
Definition locked_throughout {A} (m : M A) (s : State) : Prop :=
match m s with
| Done _ s' => mu (mgr s') = Free ∧ under_lock (added s s') = true
| Panicked _ | Blocked _ => False
end.

(** The method returns, and takes the lock only inside the calls it makes: after
    the events [pre], a first part that is a critical section or has no
    lock operation, then Loader code with no lock operation, then again a
    critical section or events without lock operation. *)
Definition locks_only_in_calls {A} (pre : list Event) (m : M A) (s : State) : Prop :=
match m s with
| Done _ s' =>
    mu (mgr s') = Free ∧
    ∃ d1 d2 d3,
      added s s' = pre ++ d1 ++ d2 ++ d3 ∧
      (under_lock d1 = true ∨ d1 = []) ∧
      Forall (fun e => loader_event e = true) d2 ∧
      (under_lock d3 = true ∨ Forall (fun e => is_lock_event e = false) d3)
| Panicked _ | Blocked _ => False
end.

(** A plugin directory with its compiled module, as an install leaves it. *)
Definition installed_fs : FS :=
<[["plugins"; ".build"; "demo.so"] := mk_node false 4096 28 493]>
(<[["plugins"; ".build"] := mk_node true 0 23 493]>
(<[["plugins"; "demo"; "go.mod"] := mk_node false 104 26 420]>
(<[["plugins"; "demo"; "main.go"] := mk_node false 900 18 420]>
(<[["plugins"; "demo"] := mk_node true 0 14 493]>
(<[["plugins"] := mk_node true 0 14 493]> ∅))))).

(** Plugin "demo" loaded from that directory, as object [7]. *)
Definition demo_loaded : State :=
with_plugin "demo" "demo" 7%nat (NewManager installed_fs 50).

Definition is_exec (e : Event) : bool :=
match e with EvExec _ _ => true | _ => false end.

(** The events of [d] that happen while no lock is held, [held] telling
    whether one is held at the start. *)
Fixpoint unlocked_events (held : bool) (d : list Event) : list Event :=
match d with
| [] => []
| e :: d' =>
    match e with
    | EvLock | EvRLock => unlocked_events true d'
    | EvUnlock | EvRUnlock => unlocked_events false d'
    | _ => (if held then [] else [e]) ++ unlocked_events held d'
    end
end.

Definition is_log (e : Event) : bool :=
match e with EvLog _ => true | _ => false end.

(** [ReloadPlugin] after the unload and the removal of the module:
    compile, then load. *)
Definition recompile_and_load (E : Env) (dir : string) : M (option string) :=
l <- get the_loader ;;
r <- CompilePlugin E (Filepath.Join (pluginDir l) dir) dir ;;
match snd r with
| Some e => ret (Some ("failed to recompile plugin: " +:+ e))
| None => LoadPlugin E dir
end.

(** The compiled module of the plugin directory [dir]. *)
Definition artifact_path (s : State) (dir : string) : string :=
Filepath.Join (buildDir (loader (mgr s))) (dir +:+ ".so").

(** The state after the read-locked lookup at the start of [ReloadPlugin]. *)
Definition after_path_lookup (s : State) : State :=
emit EvRUnlock (set_mgr (set_mu Free) (emit EvRLock (set_mgr (set_mu (RLocked 1)) s))).

(** One assignment [m[k] = v] of a copying loop. *)
Definition insert_pair (m : gmap string Plugin) (kv : string * Plugin) : gmap string Plugin :=
<[kv.1 := kv.2]> m.

(** No separator occurs in the name. *)
Fixpoint slash_free (c : string) : bool :=
match c with
| EmptyString => true
| String a c' => negb (Ascii.eqb a "/") && slash_free c'
end.

(** A path element that [Clean] keeps as it is. *)
Definition plain (c : string) : Prop :=
c ≠ "" ∧ c ≠ "." ∧ c ≠ ".." ∧ slash_free c = true.

(** The shape of the elements of a cleaned path: a rooted path has no
    [".."], a relative one has them at the front only. *)
Definition clean_key (k : path) : Prop :=
(∃ cs, k = "/" :: cs ∧ Forall plain cs) ∨
(∃ dots cs, k = dots ++ cs ∧ Forall (fun c => c = "..") dots ∧ Forall plain cs).

(** The invariant of the stack built by [Clean]. *)
Definition stack_ok (rooted : bool) (st : list string) : Prop :=
∃ ps ds, st = ps ++ ds ∧ Forall plain ps ∧ Forall (fun c => c = "..") ds ∧
         (rooted = true → ds = []).

(** The cleaned path has a parent-directory element. *)
Definition has_dotdot_element (p : string) : Prop :=
".." ∈ Filepath.split_slash (Filepath.Clean p).

(** [k] is [dir] or lies below it. *)
Definition inside (dir : string) (k : path) : Prop :=
Filepath.path_key dir `prefix_of` k.

(** A file is written inside [dir] only. *)
Definition writes_inside (dir : string) (e : Event) : bool :=
match e with
| EvWriteFile k => bool_decide (Filepath.path_key dir `prefix_of` k)
| _ => true
end.

(** Outside [dir] every entry is as before, or is a directory that was
    not there before. *)
Definition outside_kept (dir : string) (f f' : FS) : Prop :=
∀ k, ¬ inside dir k →
     f' !! k = f !! k ∨ (f !! k = None ∧ ∃ n, f' !! k = Some n ∧ n_dir n = true).

(** The footprint of extraction into [dir]. *)
Definition extract_rel (dir : string) (s s' : State) : Prop :=
grew (writes_inside dir) s s' ∧ outside_kept dir (fs s) (fs s').

(** The errors of [ExtractZipPlugin] say which step failed. *)
Definition extraction_failure (e : string) : Prop :=
(∃ e', e = "failed to clean plugin directory: " +:+ e') ∨
(∃ e', e = "failed to create plugin directory: " +:+ e') ∨
e = "failed to open zip file: zip: not a valid zip file" ∨
(∃ n e', e = "failed to extract file " +:+ n +:+ ": " +:+ e').

(** The entries [filepath.Walk] can meet from [root]: the root and what
    is reachable below it. *)
Definition walked (f : FS) (root : string) : list path :=
Filepath.path_key root :: Fs.walk_list f (Filepath.path_key root).

(** Entry [k] is a source or build-descriptor file (by the suffix of its
    path) modified strictly after [t]. *)
Definition newer_source (f : FS) (root : string) (t : Z) (k : path) : bool :=
is_source (walk_path root k) &&
match Fs.stat f k with
| Some i => (t <? n_mtime i)%Z
| None => false
end.

(** Entry [k] cannot be stat-ed, or is a directory that cannot be listed. *)
Definition walk_fails_at (f : FS) (k : path) : bool :=
match Fs.stat f k with
| Some i => n_dir i && negb (Fs.readable i)
| None => true
end.

(** [CompileWithCache] hands over to [CompilePlugin] and reports
    "recompiled". *)
Definition recompile (E : Env) (dir name : string) : M (string * bool * option string) :=
r <- CompilePlugin E dir name ;; ret (fst r, true, snd r).

(** The compiled module is older than [main.go], and the directory [a],
    which the walk meets first, cannot be listed. *)
Definition stale_unreadable_fs : FS :=
<[["plugins"; ".build"; "demo.so"] := mk_node false 4096 100 493]>
(<[["plugins"; ".build"] := mk_node true 0 23 493]>
(<[["plugins"; "demo"; "main.go"] := mk_node false 900 200 420]>
(<[["plugins"; "demo"; "a"] := mk_node true 0 14 0]>
(<[["plugins"; "demo"] := mk_node true 0 14 493]>
(<[["plugins"] := mk_node true 0 14 493]> ∅))))).

Definition stale_state : State := NewManager stale_unreadable_fs 300.

(** The events that delete from the file system. *)
Definition is_removal (e : Event) : bool :=
match e with EvRemoveAll _ | EvRemove _ => true | _ => false end.

(** The entries of [f] at or below [dir]. *)
Definition entries_below (f : FS) (dir : path) : list path :=
filter (fun k => bool_decide (dir `prefix_of` k)) (Fs.sort_paths (map fst (map_to_list f))).

(** An archive whose second entry climbs out of the plugin directory. *)
Definition traversal_zip : list ZipFile :=
[mk_zip "main.go" false 420 900 false false;
 mk_zip "../../evil.go" false 420 10 false false].

Definition traversal_env : Env :=
mk_env "linux" "amd64"
  (fun _ _ p => if String.eqb p "up/demo.zip" then Some traversal_zip else None)
  (fun _ f _ => mk_exec None "" f)
  (fun now f _ out =>
     mk_exec None "" (<[Filepath.path_key out := mk_node false 4096 now 493]> f))
  (fun _ f _ => mk_exec None "T NewPlugin" f)
  (fun _ _ _ => inl 1%nat)
  (fun _ => SymConstructor)
  (fun now _ => Some (Z.to_nat now))
  (fun _ => mk_info "demo" "1.0.0" "" "" "")
  (fun _ _ => None)
  (fun _ _ => None).

(** A host on which [go build] fails. *)
Definition broken_build_env : Env :=
mk_env "linux" "amd64"
  (fun _ _ p => if String.eqb p "up/demo.zip" then Some demo_zip else None)
  (fun _ f _ => mk_exec None "" f)
  (fun _ f _ _ => mk_exec (Some "exit status 1") "main.go:3:1: syntax error" f)
  (fun _ f _ => mk_exec None "T NewPlugin" f)
  (fun _ _ _ => inl 1%nat)
  (fun _ => SymConstructor)
  (fun now _ => Some (Z.to_nat now))
  (fun _ => mk_info "demo" "1.0.0" "" "" "")
  (fun _ _ => None)
  (fun _ _ => None).

(* --------------------------------------------------------------------- *)
(** *** The keys of the registry and of the path map *)
(* --------------------------------------------------------------------- *)

(** [m.plugins] and [m.pluginPaths] have the same keys. *)
Definition keys_agree (s : State) : Prop :=
dom (pluginPaths (mgr s)) = dom (registry s).

(** The registry is the map at [l], it exists, and the keys agree. *)
Definition consistent (l : nat) (s : State) : Prop :=
plugins (mgr s) = l ∧ allocated s ∧ keys_agree s.

Definition lock_kept (s s' : State) : Prop := mu (mgr s') = mu (mgr s).

(** The state between two calls of Manager methods. *)
Definition ready (l : nat) (s : State) : Prop :=
mu (mgr s) = Free ∧ consistent l s.

Definition anyhow (s s' : State) : Prop := True.

(* ===================================================================== *)
(** ** Proofs *)
(* ===================================================================== *)

Ltac run := unfold bind, ret, get, event, modify; simpl.

(** *** The platform gate *)

Lemma isPluginSupported_false E :
  GOOS E ∉ GetSupportedPlatforms → isPluginSupported E = false.
Proof.
  intros H. unfold isPluginSupported, GetSupportedPlatforms in *.
  rewrite !lookup_insert_ne, lookup_empty; [done|..];
    intros Heq; apply H; rewrite <- Heq; set_solver.
Qed.

(** C8. On a host whose operating system is not one of linux, darwin,
    freebsd, [LoadPluginFromFile] returns the error "plugins are not
    supported on GOOS/GOARCH" and leaves the state as it was: the trace is
    unchanged, so neither [plugin.Open] nor any file-system call was made. *)
Theorem LoadPluginFromFile_unsupported_host E p s :
  GOOS E ∉ GetSupportedPlatforms →
  LoadPluginFromFile E p s =
    Done (Some ("plugins are not supported on " +:+ GOOS E +:+ "/" +:+ GOARCH E)) s.
Proof.
  intros H. unfold LoadPluginFromFile.
  rewrite (isPluginSupported_false E H). reflexivity.
Qed.

Lemma LoadPluginFromFile_unsupported_host_witness :
  LoadPluginFromFile (demo_env "windows" 0) "plugins/.build/demo.so" fresh_state =
    Done (Some "plugins are not supported on windows/amd64") fresh_state.
Proof.
  apply (LoadPluginFromFile_unsupported_host (demo_env "windows" 0)).
  apply (bool_decide_unpack _). vm_compute. exact I.
Defined.

(** *** Archive validation *)

Lemma ValidateZipPlugin_run p s :
  ValidateZipPlugin p s =
    Done (validation_of (fs s) p, None)
         (if has_zip_extension p then emit (EvStat (K p)) s else s).
Proof.
  unfold ValidateZipPlugin, validation_of, has_zip_extension, os_Stat.
  destruct (Strings.HasSuffix _ _); simpl; [|reflexivity].
  run. destruct (Fs.stat_path (fs s) p) as [info|]; [|reflexivity].
  destruct (max_zip_size <? n_size info)%Z; [reflexivity|].
  destruct (n_size info =? 0)%Z; reflexivity.
Qed.

Lemma validation_of_invalid f p :
  IsValid (validation_of f p) = false ↔ rejected_archive f p.
Proof.
  unfold validation_of, rejected_archive.
  destruct (has_zip_extension p); simpl.
  - destruct (Fs.stat_path f p) as [info|]; simpl.
    + destruct (Z.ltb_spec max_zip_size (n_size info)); simpl.
      * split; [intros _|done]. right; right; left. eauto.
      * destruct (Z.eqb_spec (n_size info) 0); simpl.
        -- split; [intros _|done]. right; right; right. eauto.
        -- split; [done|]. intros [?|[?|[[n' [[= <-] ?]]|[n' [[= <-] ?]]]]]; try done; lia.
    + split; [intros _|done]. right; left; done.
  - split; [intros _|done]. by left.
Qed.

Lemma bind_Done {A B} (m : M A) (f : A → M B) s a s' :
  m s = Done a s' → bind m f s = f a s'.
Proof. unfold bind. by intros ->. Qed.

Lemma bind_assoc {A B C} (m : M A) (f : A → M B) (g : B → M C) s :
  bind (bind m f) g s = bind m (fun a => bind (f a) g) s.
Proof. unfold bind. by destruct (m s). Qed.

Lemma bind_Blocked {A B} (m : M A) (f : A → M B) s s' :
  m s = Blocked s' → bind m f s = Blocked s'.
Proof. unfold bind. by intros ->. Qed.

Lemma set_mu_restore m l l' : mu m = l → set_mu l (set_mu l' m) = m.
Proof. intros <-. by destruct m. Qed.

Lemma set_mgr_id s : set_mgr (fun _ => mgr s) s = s.
Proof. by destruct s. Qed.

(** The start of [InstallPluginFromZip]: lock, validate, look the name up.
    When the archive is rejected or the name is taken, that is all. *)
Lemma InstallPluginFromZip_rejects E zipPath name s :
  mu (mgr s) = Free →
  rejected_archive (fs s) zipPath ∨ is_Some (registry s !! name) →
  ∃ s',
    InstallPluginFromZip E zipPath name s =
      Done (Some (if IsValid (validation_of (fs s) zipPath)
                  then "plugin " +:+ name +:+ " is already installed"
                  else "invalid plugin: "
                       +:+ Strings.Join (Errors (validation_of (fs s) zipPath)) ", ")) s' ∧
    fs s' = fs s ∧ heap s' = heap s ∧ mgr s' = mgr s ∧
    trace s' = trace s ++ [EvLock]
                 ++ (if has_zip_extension zipPath then [EvStat (K zipPath)] else [])
                 ++ [EvUnlock].
Proof.
  intros Hmu Hrej.
  unfold InstallPluginFromZip, with_Lock, bind at 1. unfold mu_Lock. rewrite Hmu.
  unfold bind at 1. unfold bind at 1. rewrite ValidateZipPlugin_run. cbn [fst snd].
  change (fs (emit EvLock (set_mgr (set_mu WLocked) s))) with (fs s).
  set (s1 := if has_zip_extension zipPath then _ else _).
  assert (Hs1 : fs s1 = fs s ∧ heap s1 = heap s ∧ mgr s1 = set_mu WLocked (mgr s) ∧
                trace s1 = trace s ++ [EvLock]
                  ++ (if has_zip_extension zipPath then [EvStat (K zipPath)] else [])).
  { subst s1. destruct (has_zip_extension zipPath); simpl; rewrite <- ?app_assoc; done. }
  destruct Hs1 as (Hfs & Hheap & Hmgr & Htr).
  assert (Hunlock : ∀ e : option string,
    ∃ s', (mu_Unlock ;; ret e) s1 = Done e s' ∧ fs s' = fs s ∧ heap s' = heap s ∧
          mgr s' = mgr s ∧
          trace s' = trace s ++ [EvLock]
            ++ (if has_zip_extension zipPath then [EvStat (K zipPath)] else [])
            ++ [EvUnlock]).
  { intros e. unfold bind, mu_Unlock. rewrite Hmgr. simpl.
    eexists; split; [reflexivity|]. simpl. rewrite Hmgr, Htr, Hfs, Hheap.
    rewrite (set_mu_restore _ _ _ Hmu), <- !app_assoc. done. }
  destruct (IsValid (validation_of (fs s) zipPath)) eqn:Hv; simpl.
  - destruct Hrej as [Hrej|[p Hp]].
    { apply validation_of_invalid in Hrej. congruence. }
    unfold bind at 1. unfold get at 1. unfold bind at 1. unfold map_get at 1.
    replace (map_read (the_plugins s1) s1 !! name) with (Some p).
    2:{ rewrite <- Hp. unfold registry, map_read, the_plugins. by rewrite Hmgr, Hheap. }
    apply (Hunlock (Some _)).
  - apply (Hunlock (Some _)).
Qed.

Lemma added_app s s' d : trace s' = trace s ++ d → added s s' = d.
Proof. unfold added. intros ->. by rewrite drop_app_length. Qed.

Lemma ValidateZipPlugin_added p s s' v :
  ValidateZipPlugin p s = Done v s' →
  added s s' = if has_zip_extension p then [EvStat (K p)] else [].
Proof.
  rewrite ValidateZipPlugin_run. intros [= _ <-]. apply added_app.
  destruct (has_zip_extension p); simpl; by rewrite ?app_nil_r.
Qed.

(** *** Installing a name that is taken *)

(** C4, as the code has it.  When [name] is in the registry, the call
    returns an error and leaves the file system, the maps and the manager
    as they were; the error is "plugin NAME is already installed" when the
    archive passes validation, and the validation error otherwise. *)
Theorem second_install_rejected E zipPath name s p :
  mu (mgr s) = Free →
  registry s !! name = Some p →
  ∃ e s',
    InstallPluginFromZip E zipPath name s = Done (Some e) s' ∧
    fs s' = fs s ∧ heap s' = heap s ∧ mgr s' = mgr s ∧
    (¬ rejected_archive (fs s) zipPath →
     e = "plugin " +:+ name +:+ " is already installed") ∧
    (rejected_archive (fs s) zipPath →
     e = "invalid plugin: " +:+ Strings.Join (Errors (validation_of (fs s) zipPath)) ", ").
Proof.
  intros Hmu Hp.
  destruct (InstallPluginFromZip_rejects E zipPath name s Hmu) as (s' & Hrun & ? & ? & ? & _).
  { right. eauto. }
  eexists _, s'. split; [exact Hrun|]. repeat split; try done.
  - intros Hok. destruct (IsValid _) eqn:Hv; [done|].
    apply validation_of_invalid in Hv. done.
  - intros Hrej. apply validation_of_invalid in Hrej. by rewrite Hrej.
Qed.

Lemma second_install_rejected_witness :
  ∃ e s',
    InstallPluginFromZip (demo_env "linux" 0) "up/demo.zip" "demo" demo_installed
      = Done (Some e) s' ∧
    fs s' = fs demo_installed ∧ heap s' = heap demo_installed ∧
    mgr s' = mgr demo_installed ∧
    (¬ rejected_archive (fs demo_installed) "up/demo.zip" →
     e = "plugin " +:+ "demo" +:+ " is already installed") ∧
    (rejected_archive (fs demo_installed) "up/demo.zip" →
     e = "invalid plugin: "
         +:+ Strings.Join (Errors (validation_of (fs demo_installed) "up/demo.zip")) ", ").
Proof.
  apply (second_install_rejected (demo_env "linux" 0) "up/demo.zip" "demo"
           demo_installed 7%nat).
  - reflexivity.
  - vm_compute. reflexivity.
Defined.

(** C4 as claimed fails: install "demo" from [up/demo.zip], then do the
    same again.  The first call succeeds and removes the archive; the
    second one fails in the validation, which comes before the look-up in
    the registry, so the error is not "already installed". *)
Lemma second_install_invalid_archive_counterexample :
  ∃ s1 s2,
    InstallPluginFromZip (demo_env "linux" 1000) "up/demo.zip" "demo" fresh_state
      = Done None s1 ∧
    is_Some (registry s1 !! "demo") ∧
    mu (mgr s1) = Free ∧
    Fs.stat_path (fs s1) "up/demo.zip" = None ∧
    InstallPluginFromZip (demo_env "linux" 1000) "up/demo.zip" "demo" s1
      = Done (Some ("invalid plugin: Cannot access file: " +:+
                    "stat up/demo.zip: no such file or directory")) s2 ∧
    "invalid plugin: Cannot access file: stat up/demo.zip: no such file or directory"
      ≠ "plugin demo is already installed".
Proof.
  eexists _, _. split; [vm_compute; reflexivity|].
  split; [vm_compute; eauto|]. split; [vm_compute; reflexivity|].
  split; [vm_compute; reflexivity|]. split; [vm_compute; reflexivity|]. discriminate.
Qed.

(** *** Hot reload *)

Lemma mu_Lock_held s : mu (mgr s) ≠ Free → mu_Lock s = Blocked s.
Proof. unfold mu_Lock. by destruct (mu (mgr s)). Qed.

(** [HotReload] takes the lock and then calls [UnloadPlugin] or
    [LoadPlugins], which take it again: the call never returns.  Nothing
    was unloaded or shut down by then. *)
Lemma HotReload_blocks E s :
  ∃ s', HotReload E s = Blocked s' ∧
        fs s' = fs s ∧ heap s' = heap s ∧
        pluginPaths (mgr s') = pluginPaths (mgr s) ∧
        Forall (fun e => is_shutdown e = false) (added s s').
Proof.
  unfold HotReload, with_Lock, bind at 1. unfold mu_Lock at 1.
  destruct (mu (mgr s)) eqn:Hmu;
    try (exists s; unfold added; rewrite drop_all; by repeat split).
  eexists. split.
  - unfold bind, log_Printf, event, modify, get, map_range, ret. simpl.
    destruct (map fst _) as [|n names]; simpl.
    + unfold LoadPlugins, with_Lock, bind, mu_Lock. simpl. reflexivity.
    + unfold UnloadPlugin, with_Lock, bind, mu_Lock. simpl. reflexivity.
  - repeat split; try done.
    erewrite added_app; [|simpl; rewrite <- app_assoc; reflexivity].
    by repeat constructor.
Qed.

(** C6 fails.  From every state, whatever the host does, [HotReload]
    does not return: it blocks on the lock it holds itself, with the
    registry as it was and no [Shutdown] made.  At the state of the
    claim's example, with three plugins loaded and two plugin directories
    under the plugin root, the three entries are still there. *)
Theorem HotReload_never_returns :
  (∀ E s, ∃ s', HotReload E s = Blocked s' ∧
                registry s' = registry s ∧
                Forall (fun e => is_shutdown e = false) (added s s')) ∧
  ∃ s', HotReload (demo_env "linux" 1000) three_loaded = Blocked s' ∧
        mu (mgr three_loaded) = Free ∧
        size (registry three_loaded) = 3%nat ∧
        size (registry s') = 3%nat ∧
        filter (fun e => is_shutdown e = true) (trace s') = [].
Proof.
  split.
  - intros E s. destruct (HotReload_blocks E s) as (s' & Hr & _ & Hh & Hp & Hs).
    exists s'. repeat split; [done| |done].
    unfold registry, map_read. rewrite Hh.
    enough (plugins (mgr s') = plugins (mgr s)) as -> by done.
    revert Hr. unfold HotReload, with_Lock, bind at 1. unfold mu_Lock at 1.
    destruct (mu (mgr s)); try (by intros [= <-]).
    unfold bind, log_Printf, event, modify, get, map_range, ret. simpl.
    destruct (map fst _) as [|n names]; simpl.
    + unfold LoadPlugins, with_Lock, bind, mu_Lock. simpl. by intros [= <-].
    + unfold UnloadPlugin, with_Lock, bind, mu_Lock. simpl. by intros [= <-].
  - eexists. split; [vm_compute; reflexivity|]. repeat split; vm_compute; reflexivity.
Qed.

(** *** [GetAllPlugins] *)

Lemma copy_loop c kvs : ∀ s acc,
  heap s !! c = Some acc →
  ∃ s', foldM (fun _ kv => map_set c (fst kv) (snd kv)) kvs tt s = Done tt s' ∧
        heap s' = <[c := foldl insert_pair acc kvs]> (heap s) ∧
        fs s' = fs s ∧ trace s' = trace s ∧ mgr s' = mgr s ∧ clock s' = clock s.
Proof.
  induction kvs as [|[k v] kvs IH]; intros s acc Hc; simpl.
  - exists s. unfold ret. by rewrite list_insert_id.
  - unfold bind, map_set at 1. rewrite Hc.
    destruct (IH (set_heap (fun h => <[c := <[k := v]> acc]> h) s) (<[k := v]> acc))
      as (s' & -> & Hh & ? & ? & ? & ?).
    { simpl. apply list_lookup_insert_eq. by eapply lookup_lt_Some. }
    exists s'. split; [done|]. rewrite Hh. simpl. by rewrite list_insert_insert_eq.
Qed.

Lemma foldl_insert_pair_lookup (l : list (string * Plugin)) : ∀ acc k,
  NoDup l.*1 →
  foldl insert_pair acc l !! k =
    match (list_to_map l : gmap string Plugin) !! k with
    | Some v => Some v
    | None => acc !! k
    end.
Proof.
  induction l as [|[k0 v0] l IH]; intros acc k Hnd; simpl.
  - by rewrite lookup_empty.
  - inversion_clear Hnd as [|?? Hk0 Hnd']. rewrite IH by done. unfold insert_pair. simpl.
    destruct (decide (k = k0)) as [->|Hne].
    + rewrite (not_elem_of_list_to_map_1 _ _ Hk0), !lookup_insert_eq. done.
    + rewrite !lookup_insert_ne by done. done.
Qed.

Lemma foldl_insert_pair_to_list (m : gmap string Plugin) :
  foldl insert_pair ∅ (map_to_list m) = m.
Proof.
  apply map_eq. intros k.
  rewrite foldl_insert_pair_lookup by apply NoDup_fst_map_to_list.
  rewrite list_to_map_to_list, lookup_empty. by destruct (m !! k).
Qed.

(** C10. [GetAllPlugins] returns a reference to a map that did not exist
    before the call, holding the pairs of the registry; the registry, the
    file system and the manager are as before.  Assigning to a key of the
    returned map, or deleting one, changes the returned map and leaves the
    registry as it was. *)
Theorem GetAllPlugins_returns_copy s reg :
  mu (mgr s) = Free →
  heap s !! plugins (mgr s) = Some reg →
  ∃ copy s',
    GetAllPlugins s = Done copy s' ∧
    heap s !! copy = None ∧
    copy ≠ plugins (mgr s') ∧
    heap s' !! copy = Some reg ∧
    registry s' = reg ∧ registry s = reg ∧
    fs s' = fs s ∧ mgr s' = mgr s ∧
    (∀ k v, ∃ t, map_set copy k v s' = Done tt t ∧
                 heap t !! copy = Some (<[k := v]> reg) ∧ registry t = reg) ∧
    (∀ k, ∃ t, map_delete copy k s' = Done tt t ∧
               heap t !! copy = Some (delete k reg) ∧ registry t = reg).
Proof.
  intros Hmu Hreg.
  assert (Hlt : (plugins (mgr s) < length (heap s))%nat) by by eapply lookup_lt_Some.
  unfold GetAllPlugins, with_RLock.
  erewrite bind_Done; [|unfold mu_RLock; rewrite Hmu; reflexivity].
  set (s0 := emit EvRLock _).
  set (s1 := set_heap (fun h => h ++ [∅]) s0).
  assert (Hread : map_read (the_plugins s1) s1 = reg).
  { unfold map_read, the_plugins, s1. simpl. by rewrite lookup_app_l, Hreg. }
  destruct (copy_loop (length (heap s0)) (map_to_list reg) s1 ∅)
    as (s2 & Hloop & Hh & Hfs & Htr & Hmgr & Hck).
  { unfold s1. simpl. by rewrite lookup_app_r, Nat.sub_diag. }
  rewrite foldl_insert_pair_to_list in Hh. simpl in Hh, Hfs, Hmgr.
  erewrite bind_Done.
  2:{ erewrite bind_Done; [|reflexivity]. fold s1.
      erewrite bind_Done; [|reflexivity].
      erewrite bind_Done; [|unfold map_range; rewrite Hread; reflexivity].
      erewrite bind_Done; [|exact Hloop]. reflexivity. }
  erewrite bind_Done; [|unfold mu_RUnlock; rewrite Hmgr; reflexivity].
  eexists _, _. split; [reflexivity|].
  unfold registry, map_read, map_set, map_delete, modify. simpl.
  rewrite !Hh, !Hmgr, ?Hfs. simpl.
  assert (Hcopy : (<[length (heap s) := reg]> (heap s ++ [∅])) !! length (heap s) = Some reg).
  { apply list_lookup_insert_eq. rewrite length_app. simpl. lia. }
  assert (Hregistry : (<[length (heap s) := reg]> (heap s ++ [∅])) !! plugins (mgr s)
                      = Some reg).
  { rewrite list_lookup_insert_ne by lia. by rewrite lookup_app_l. }
  rewrite Hcopy, Hregistry, Hreg. simpl.
  split; [by apply lookup_ge_None|]. split; [lia|].
  do 4 (split; [done|]). split; [by rewrite set_mu_restore|].
  split.
  - intros k v. eexists. split; [reflexivity|]. simpl. rewrite Hh, Hmgr. simpl. split.
    + apply list_lookup_insert_eq. rewrite length_insert, length_app. simpl. lia.
    + rewrite list_lookup_insert_ne by lia. by rewrite Hregistry.
  - intros k. eexists. split; [reflexivity|]. simpl. rewrite Hh, Hcopy, Hmgr. simpl. split.
    + apply list_lookup_insert_eq. rewrite length_insert, length_app. simpl. lia.
    + rewrite list_lookup_insert_ne by lia. by rewrite Hregistry.
Qed.

Lemma GetAllPlugins_returns_copy_witness :
  ∃ copy s',
    GetAllPlugins demo_installed = Done copy s' ∧
    heap demo_installed !! copy = None ∧
    copy ≠ plugins (mgr s') ∧
    heap s' !! copy = Some (registry demo_installed) ∧
    registry s' = registry demo_installed ∧
    registry demo_installed = registry demo_installed ∧
    fs s' = fs demo_installed ∧ mgr s' = mgr demo_installed ∧
    (∀ k v, ∃ t, map_set copy k v s' = Done tt t ∧
                 heap t !! copy = Some (<[k := v]> (registry demo_installed)) ∧
                 registry t = registry demo_installed) ∧
    (∀ k, ∃ t, map_delete copy k s' = Done tt t ∧
               heap t !! copy = Some (delete k (registry demo_installed)) ∧
               registry t = registry demo_installed).
Proof.
  apply (GetAllPlugins_returns_copy demo_installed (registry demo_installed));
    reflexivity.
Defined.

(* --------------------------------------------------------------------- *)
(** *** Footprint of Extractor, Compiler and Loader *)
(* --------------------------------------------------------------------- *)

Section Steps.
Context (I : State → Prop) (R : State → State → Prop) `{!PreOrder R}.

Lemma steps_ret {A} (a : A) : steps I R (ret a).
Proof. intros s HI. simpl. done. Qed.

Lemma steps_bind {A B} (m : M A) (f : A → M B) :
  steps I R m → (∀ a, steps I R (f a)) → steps I R (bind m f).
Proof.
  intros Hm Hf s HI. unfold bind. specialize (Hm s HI).
  destruct (m s) as [a s1|s1|s1]; [|done..]. destruct Hm as [HR HI1].
  specialize (Hf a s1 HI1). destruct (f a s1); [|done..].
  destruct Hf. split; [by etrans|done].
Qed.

Lemma steps_get {A} (f : State → A) : steps I R (get f).
Proof. intros s HI. simpl. done. Qed.

Lemma steps_foldM {A B} (f : B → A → M B) (l : list A) :
  (∀ b a, steps I R (f b a)) → ∀ b, steps I R (foldM f l b).
Proof.
  intros Hf. induction l as [|a l IH]; intros b; simpl.
  - apply steps_ret.
  - apply steps_bind; [apply Hf|apply IH].
Qed.

Lemma steps_for_each {A} (body : A → M (option string)) (l : list A) :
  (∀ a, steps I R (body a)) → steps I R (for_each body l).
Proof.
  intros Hb. induction l as [|a l IH]; simpl.
  - apply steps_ret.
  - apply steps_bind; [apply Hb|]. intros [e|]; [apply steps_ret|apply IH].
Qed.
End Steps.

Lemma steps_mono (I I' : State → Prop) (R R' : State → State → Prop) {A} (m : M A) :
  (∀ s, I' s → I s) →
  (∀ s s', I' s → R s s' → R' s s' ∧ I' s') →
  steps I R m → steps I' R' m.
Proof.
  intros HI HR Hm s HI'. specialize (Hm s (HI s HI')).
  destruct (m s); [|done..]. destruct Hm. by apply HR.
Qed.

Lemma grew_refl P s : grew P s s.
Proof. split; [lia|]. exists []. by rewrite app_nil_r. Qed.

Lemma grew_same P s s' : clock s' = clock s → trace s' = trace s → grew P s s'.
Proof. intros Hc Ht. split; [lia|]. exists []. by rewrite app_nil_r. Qed.

Lemma grew_trans P s1 s2 s3 : grew P s1 s2 → grew P s2 s3 → grew P s1 s3.
Proof.
  intros [? (d1 & H1 & ?)] [? (d2 & H2 & ?)]. split; [lia|].
  exists (d1 ++ d2). rewrite H2, H1, app_assoc. split; [done|]. by apply Forall_app.
Qed.

Lemma grew_emit P e s : P e = true → grew P s (emit e s).
Proof. intros He. split; [simpl; lia|]. exists [e]. by repeat constructor. Qed.

Lemma same_but_loaded_refl m : same_but_loaded m m.
Proof. exists (loadedPlugins (loader m)). by destruct m as [? ? [] ? ? ?]. Qed.

Lemma same_but_loaded_trans m1 m2 m3 :
  same_but_loaded m1 m2 → same_but_loaded m2 m3 → same_but_loaded m1 m3.
Proof. intros [lp1 ->] [lp2 ->]. by exists lp2. Qed.

#[local] Instance loader_rel_preorder : PreOrder loader_rel.
Proof.
  split.
  - intros s. split; [done|]. split; [apply same_but_loaded_refl|apply grew_refl].
  - intros s1 s2 s3 (Hh1 & Hm1 & Hg1) (Hh2 & Hm2 & Hg2). split; [congruence|].
    split; [by eapply same_but_loaded_trans|by eapply grew_trans].
Qed.

#[local] Instance held_rel_preorder P : PreOrder (held_rel P).
Proof.
  split.
  - intros s. split; [done|]. split; [done|]. apply grew_refl.
  - intros s1 s2 s3 (? & ? & Hg1) (? & ? & Hg2).
    split; [congruence|]. split; [congruence|]. by eapply grew_trans.
Qed.

Lemma loader_event_section e : loader_event e = true → section_event e = true.
Proof. by destruct e. Qed.

Lemma grew_mono (P Q : Event → bool) s s' :
  (∀ e, P e = true → Q e = true) → grew P s s' → grew Q s s'.
Proof.
  intros HPQ [? (d & ? & Hd)]. split; [done|]. exists d. split; [done|].
  eapply Forall_impl; [exact Hd|]. auto.
Qed.

Lemma loader_event_no_lock e : loader_event e = true → no_lock_event e = true.
Proof. by destruct e. Qed.

Lemma loader_rel_held P s s' :
  (∀ e, loader_event e = true → P e = true) → loader_rel s s' → held_rel P s s'.
Proof.
  intros HP (_ & [lp Hm] & Hg). unfold held_rel. rewrite Hm.
  split; [done|]. split; [done|]. by eapply grew_mono.
Qed.

(** A system call that leaves one loader event and touches the file system
    only. *)
Lemma loader_rel_fs e f s : loader_event e = true → loader_rel s (set_fs f (emit e s)).
Proof.
  intros He. split; [done|]. split; [apply same_but_loaded_refl|].
  split; [simpl; lia|]. exists [e]. by repeat constructor.
Qed.

Lemma loader_rel_emit e s : loader_event e = true → loader_rel s (emit e s).
Proof.
  intros He. split; [done|]. split; [apply same_but_loaded_refl|]. by apply grew_emit.
Qed.

Create HintDb steps.

Lemma steps_event e : loader_event e = true → steps always loader_rel (event e).
Proof. intros He s _. split; [by apply loader_rel_emit|done]. Qed.

Lemma steps_set_fs f : steps always loader_rel (modify (set_fs f)).
Proof.
  intros s _. simpl. split; [|done].
  split; [done|]. split; [apply same_but_loaded_refl|by apply grew_same].
Qed.

Lemma steps_set_loadedPlugins f :
  steps always loader_rel (modify (set_mgr (set_loadedPlugins f))).
Proof.
  intros s _. simpl. split; [|done]. split; [done|]. split; [|by apply grew_same].
  exists (f (loadedPlugins (loader (mgr s)))). by destruct s as [? ? ? ? [? ? [] ? ? ?]].
Qed.

#[local] Hint Resolve steps_set_fs steps_set_loadedPlugins : steps.
#[local] Hint Extern 1 (steps always loader_rel (event _)) =>
  apply steps_event; reflexivity : steps.

(** Structural steps: sequencing, returns, case distinctions. *)
Ltac steps_go :=
  repeat first
    [ progress intros
    | match goal with |- PreOrder _ => apply _ end
    | apply steps_ret
    | apply steps_get
    | solve [auto with steps]
    | apply steps_bind
    | apply steps_foldM
    | apply steps_for_each
    | match goal with
      | |- steps _ _ (match ?x with _ => _ end) => destruct x
      | |- steps _ _ (let '(_, _) := ?x in _) => destruct x
      end ].

Lemma steps_os_Stat p : steps always loader_rel (os_Stat p).
Proof. unfold os_Stat. steps_go. Qed.
Lemma steps_os_RemoveAll p : steps always loader_rel (os_RemoveAll p).
Proof. unfold os_RemoveAll. steps_go. Qed.
Lemma steps_os_Remove p : steps always loader_rel (os_Remove p).
Proof. unfold os_Remove. steps_go. Qed.
Lemma steps_os_MkdirAll p mode : steps always loader_rel (os_MkdirAll p mode).
Proof. unfold os_MkdirAll. steps_go. Qed.
Lemma steps_os_WriteFile p size mode : steps always loader_rel (os_WriteFile p size mode).
Proof. unfold os_WriteFile. steps_go. Qed.
Lemma steps_os_OpenFile p mode : steps always loader_rel (os_OpenFile p mode).
Proof. apply steps_os_WriteFile. Qed.
Lemma steps_io_Copy p size fails : steps always loader_rel (io_Copy p size fails).
Proof. unfold io_Copy. steps_go. Qed.
Lemma steps_os_ReadDir p : steps always loader_rel (os_ReadDir p).
Proof. unfold os_ReadDir. steps_go. Qed.
Lemma steps_filepath_Glob_so p : steps always loader_rel (filepath_Glob_so p).
Proof. unfold filepath_Glob_so. steps_go. Qed.
Lemma steps_filepath_Walk {St} root fn (st : St) : steps always loader_rel (filepath_Walk root fn st).
Proof. unfold filepath_Walk. steps_go. Qed.
Lemma steps_zip_OpenReader E p : steps always loader_rel (zip_OpenReader E p).
Proof. unfold zip_OpenReader. steps_go. Qed.
Lemma steps_exec_run dir args r : steps always loader_rel (exec_run dir args r).
Proof. unfold exec_run. steps_go. Qed.
Lemma steps_plugin_Open E p : steps always loader_rel (plugin_Open E p).
Proof. unfold plugin_Open. steps_go. Qed.
Lemma steps_call_NewPlugin E h : steps always loader_rel (call_NewPlugin E h).
Proof. unfold call_NewPlugin. steps_go. Qed.
Lemma steps_fmt_Printf msg : steps always loader_rel (fmt_Printf msg).
Proof. unfold fmt_Printf. steps_go. Qed.

#[local] Hint Resolve steps_os_Stat steps_os_RemoveAll steps_os_Remove steps_os_MkdirAll
  steps_os_WriteFile steps_os_OpenFile steps_io_Copy steps_os_ReadDir
  steps_filepath_Glob_so steps_filepath_Walk steps_zip_OpenReader steps_exec_run
  steps_plugin_Open steps_call_NewPlugin steps_fmt_Printf : steps.

(** Extractor *)
Lemma steps_extractFile file destDir : steps always loader_rel (extractFile file destDir).
Proof. unfold extractFile. steps_go. Qed.
#[local] Hint Resolve steps_extractFile : steps.
Lemma steps_ExtractZipPlugin E zipPath name :
  steps always loader_rel (ExtractZipPlugin E zipPath name).
Proof. unfold ExtractZipPlugin. steps_go. Qed.
Lemma steps_generateManifest dir : steps always loader_rel (generateManifest dir).
Proof. unfold generateManifest. steps_go. Qed.
#[local] Hint Resolve steps_generateManifest : steps.
Lemma steps_ValidatePluginStructure dir : steps always loader_rel (ValidatePluginStructure dir).
Proof. unfold ValidatePluginStructure. steps_go. Qed.

(** Compiler *)
Lemma steps_createGoMod dir name : steps always loader_rel (createGoMod dir name).
Proof. unfold createGoMod. steps_go. Qed.
#[local] Hint Resolve steps_createGoMod : steps.
Lemma steps_ensureGoMod E dir name : steps always loader_rel (ensureGoMod E dir name).
Proof. unfold ensureGoMod. steps_go. Qed.
#[local] Hint Resolve steps_ensureGoMod : steps.
Lemma steps_CompilePlugin E dir name : steps always loader_rel (CompilePlugin E dir name).
Proof. unfold CompilePlugin. steps_go. Qed.
#[local] Hint Resolve steps_CompilePlugin : steps.
Lemma steps_needsRecompilation dir t : steps always loader_rel (needsRecompilation dir t).
Proof. unfold needsRecompilation. steps_go. Qed.
#[local] Hint Resolve steps_needsRecompilation : steps.
Lemma steps_CompileWithCache E dir name : steps always loader_rel (CompileWithCache E dir name).
Proof. unfold CompileWithCache. steps_go. Qed.
Lemma steps_ValidateCompilation E so : steps always loader_rel (ValidateCompilation E so).
Proof. unfold ValidateCompilation. steps_go. Qed.
#[local] Hint Resolve steps_ExtractZipPlugin steps_ValidatePluginStructure
  steps_CompileWithCache steps_ValidateCompilation : steps.

(** Loader *)
Lemma steps_open_and_construct E p : steps always loader_rel (open_and_construct E p).
Proof. unfold open_and_construct. steps_go. Qed.
#[local] Hint Resolve steps_open_and_construct : steps.
Lemma steps_LoadPluginFromFile E p : steps always loader_rel (LoadPluginFromFile E p).
Proof. unfold LoadPluginFromFile. steps_go. Qed.
Lemma steps_loadCompiledPlugin E p : steps always loader_rel (loadCompiledPlugin E p).
Proof. unfold loadCompiledPlugin. steps_go. Qed.
#[local] Hint Resolve steps_LoadPluginFromFile steps_loadCompiledPlugin : steps.
Lemma steps_LoadPluginFromDirectory E name :
  steps always loader_rel (LoadPluginFromDirectory E name).
Proof. unfold LoadPluginFromDirectory. steps_go. Qed.
#[local] Hint Resolve steps_LoadPluginFromDirectory : steps.
Lemma steps_InstallFromZip E zipPath name : steps always loader_rel (InstallFromZip E zipPath name).
Proof. unfold InstallFromZip. steps_go. Qed.
Lemma steps_LoadAllPlugins E : steps always loader_rel (LoadAllPlugins E).
Proof. unfold LoadAllPlugins, load_dir_entry, load_so_file. steps_go. Qed.
Lemma steps_Loader_UninstallPlugin name : steps always loader_rel (Loader_UninstallPlugin name).
Proof. unfold Loader_UninstallPlugin. steps_go. Qed.
Lemma steps_RecompilePlugin E name : steps always loader_rel (RecompilePlugin E name).
Proof. unfold RecompilePlugin. steps_go. Qed.
#[local] Hint Resolve steps_InstallFromZip steps_LoadAllPlugins
  steps_Loader_UninstallPlugin steps_RecompilePlugin : steps.

(* --------------------------------------------------------------------- *)
(** *** Footprint of the Manager's critical sections *)
(* --------------------------------------------------------------------- *)

Lemma allocated_same s s' :
  heap s' = heap s → plugins (mgr s') = plugins (mgr s) → allocated s → allocated s'.
Proof. unfold allocated. by intros -> ->. Qed.

Lemma steps_held_loader P {A} (m : M A) :
  (∀ e, loader_event e = true → P e = true) →
  steps always loader_rel m → steps allocated (held_rel P) m.
Proof.
  intros HP. apply steps_mono; [done|]. intros s s' Ha Hrel.
  split; [by apply loader_rel_held|].
  destruct Hrel as (Hh & [lp Hm] & _). eapply allocated_same; [exact Hh| |exact Ha].
  by rewrite Hm.
Qed.

Lemma steps_held_event P e : P e = true → steps allocated (held_rel P) (event e).
Proof.
  intros He s Ha. simpl. split; [|done]. split; [done|]. split; [done|]. by apply grew_emit.
Qed.

Lemma held_rel_same P s s' :
  mu (mgr s') = mu (mgr s) → plugins (mgr s') = plugins (mgr s) →
  clock s' = clock s → trace s' = trace s → held_rel P s s'.
Proof. intros. split; [done|]. split; [done|]. by apply grew_same. Qed.

Lemma steps_held_map_get P l k : steps allocated (held_rel P) (map_get l k).
Proof. intros s Ha. split; [by apply held_rel_same|done]. Qed.

Lemma steps_held_map_delete P l k : steps allocated (held_rel P) (map_delete l k).
Proof.
  intros s Ha. split; [by apply held_rel_same|]. unfold allocated in *. simpl.
  destruct (heap s !! l); [|done].
  apply lookup_lt_is_Some. rewrite length_insert. by apply lookup_lt_is_Some.
Qed.

Lemma steps_held_set_pluginPaths P f :
  steps allocated (held_rel P) (modify (set_mgr (set_pluginPaths f))).
Proof. intros s Ha. split; [by apply held_rel_same|done]. Qed.

#[local] Hint Resolve steps_held_map_get steps_held_map_delete
  steps_held_set_pluginPaths : steps.
#[local] Hint Extern 1 (steps allocated (held_rel _) (event _)) =>
  apply steps_held_event; reflexivity : steps.
#[local] Hint Extern 5 (steps allocated (held_rel _) _) =>
  apply steps_held_loader; [intros [] ?; done|solve [auto with steps]] : steps.

Lemma steps_call_Initialize E p : steps allocated section_rel (call_Initialize E p).
Proof. unfold call_Initialize, section_rel. steps_go. Qed.
Lemma steps_log_Printf P msg :
  P (EvLog msg) = true → steps allocated (held_rel P) (log_Printf msg).
Proof. intros. by apply steps_held_event. Qed.
Lemma steps_registerPluginRoutes name p :
  steps allocated section_rel (registerPluginRoutes name p).
Proof. unfold registerPluginRoutes, section_rel. steps_go. Qed.

(** The registry exists, so the assignment in [store_plugin] does not panic. *)
Lemma steps_store_plugin P name p dir : steps allocated (held_rel P) (store_plugin name p dir).
Proof.
  intros s Ha. unfold store_plugin, map_set, the_plugins. run.
  destruct Ha as [m Hm]. rewrite Hm. simpl. split; [by apply held_rel_same|].
  unfold allocated. simpl. apply lookup_lt_is_Some. rewrite length_insert.
  by eapply lookup_lt_Some.
Qed.

#[local] Hint Resolve steps_call_Initialize steps_registerPluginRoutes steps_store_plugin
  : steps.
#[local] Hint Extern 1 (steps allocated (held_rel _) (log_Printf _)) =>
  apply steps_log_Printf; reflexivity : steps.
#[local] Hint Extern 1 (steps allocated section_rel _) => unfold section_rel : steps.

Lemma under_lock_intro mid :
  Forall (fun e => is_lock_event e = false) mid →
  under_lock (EvLock :: mid ++ [EvUnlock]) = true.
Proof.
  intros H. unfold under_lock. rewrite reverse_app. simpl.
  apply forallb_forall. intros e He. apply list_elem_of_In in He.
  rewrite elem_of_reverse in He.
  rewrite Forall_forall in H. by rewrite (H e He).
Qed.

(** The shape of every method that takes the lock and defers its release. *)
Lemma critical_section P {A} (body : M A) s :
  (∀ e, P e = true → is_lock_event e = false) →
  mu (mgr s) = Free → allocated s →
  steps allocated (held_rel P) body →
  ∃ r s' mid,
    with_Lock body s = Done r s' ∧
    mu (mgr s') = Free ∧ allocated s' ∧
    plugins (mgr s') = plugins (mgr s) ∧ clock s <= clock s' ∧
    trace s' = trace s ++ EvLock :: mid ++ [EvUnlock] ∧
    Forall (fun e => P e = true) mid.
Proof.
  intros HP Hmu Ha Hbody. unfold with_Lock.
  erewrite bind_Done; [|unfold mu_Lock; rewrite Hmu; reflexivity].
  set (s1 := emit EvLock _). specialize (Hbody s1 Ha). unfold bind at 1.
  destruct (body s1) as [r s2|s2|s2]; [|done..].
  destruct Hbody as [(Hmu2 & Hpl & Hck & mid & Htr & Hmid) Ha2].
  unfold bind, mu_Unlock. rewrite Hmu2. simpl.
  eexists r, _, mid. split; [reflexivity|]. simpl.
  split; [done|]. split; [done|]. split; [exact Hpl|]. split; [simpl in Hck; lia|].
  split; [|done]. rewrite Htr. simpl. by rewrite <- !app_assoc.
Qed.

Lemma critical_section_locked P {A} (body : M A) s :
  (∀ e, P e = true → is_lock_event e = false) →
  mu (mgr s) = Free → allocated s →
  steps allocated (held_rel P) body →
  locked_throughout (with_Lock body) s.
Proof.
  intros HP Hmu Ha Hbody. unfold locked_throughout.
  destruct (critical_section P body s HP Hmu Ha Hbody)
    as (r & s' & mid & -> & ? & _ & _ & _ & Htr & Hmid).
  split; [done|]. rewrite (added_app _ _ _ Htr). apply under_lock_intro.
  eapply Forall_impl; [exact Hmid|]. auto.
Qed.

Lemma section_event_no_lock e : section_event e = true → is_lock_event e = false.
Proof. by destruct e. Qed.

Lemma no_lock_event_no_lock e : no_lock_event e = true → is_lock_event e = false.
Proof. by destruct e. Qed.

Lemma steps_init_and_store E entry : steps allocated section_rel (init_and_store E entry).
Proof. unfold init_and_store, section_rel. steps_go. Qed.
#[local] Hint Resolve steps_init_and_store : steps.

Lemma InstallPluginFromZip_locked E zipPath name s :
  mu (mgr s) = Free → allocated s → locked_throughout (InstallPluginFromZip E zipPath name) s.
Proof.
  intros Hmu Ha. apply (critical_section_locked section_event);
    [apply section_event_no_lock|done|done|].
  unfold ValidateZipPlugin. steps_go.
Qed.

(** [InstallPluginFromZip] starts with the lock and the validation; what
    the rest of the call does comes after them. *)
Lemma InstallPluginFromZip_validates_first E zipPath name s :
  mu (mgr s) = Free → allocated s →
  ∃ r s' rest,
    InstallPluginFromZip E zipPath name s = Done r s' ∧
    trace s' = trace s ++ EvLock ::
                 (if has_zip_extension zipPath then [EvStat (K zipPath)] else []) ++ rest.
Proof.
  intros Hmu Ha. unfold InstallPluginFromZip, with_Lock.
  match goal with
  | |- context [bind (ValidateZipPlugin zipPath) ?k] =>
      assert (Hk : ∀ v, steps allocated section_rel (k v))
        by (intros v; cbv beta; unfold section_rel; steps_go);
      set (cont := k) in *
  end.
  erewrite bind_Done; [|unfold mu_Lock; rewrite Hmu; reflexivity].
  set (s1 := emit EvLock _).
  rewrite bind_assoc. erewrite bind_Done; [|apply ValidateZipPlugin_run].
  set (s2 := if has_zip_extension zipPath then _ else _).
  assert (Hs2 : allocated s2 ∧ mu (mgr s2) = WLocked ∧
                trace s2 = trace s ++ EvLock ::
                  (if has_zip_extension zipPath then [EvStat (K zipPath)] else [])).
  { subst s2 s1. destruct (has_zip_extension zipPath); simpl; rewrite <- ?app_assoc; done. }
  destruct Hs2 as (Ha2 & Hmu2 & Htr2).
  specialize (Hk (validation_of (fs s1) zipPath, None) s2 Ha2). unfold bind at 1.
  destruct (cont _ s2) as [r s3|s3|s3]; [|done..].
  destruct Hk as [(Hmu3 & _ & _ & d & Htr3 & _) _].
  unfold bind, mu_Unlock. rewrite Hmu3, Hmu2. simpl.
  exists r, (emit EvUnlock (set_mgr (set_mu Free) s3)), (d ++ [EvUnlock]).
  split; [done|]. simpl. by rewrite Htr3, Htr2, <- !app_assoc.
Qed.


(** C7, as the code has it.  [ValidateZipPlugin] changes nothing but the
    trace (one [Stat] at most) and rejects the archive exactly when the
    path does not end in [.zip] (any case), or the file cannot be
    stat-ed, or its size exceeds 100*1024*1024, or its size is 0.  When
    it rejects, [InstallPluginFromZip] returns "invalid plugin: " with
    the validation errors, the file system, the maps and the manager are
    as before, and between taking and releasing the lock nothing happened
    but that [Stat]: no extraction.  In every install the lock and the
    validation come first: whatever else the call does follows them in
    the trace.  An archive of 99 MB named [*.zip] is accepted. *)
Theorem archive_validation_gate E zipPath name s :
  mu (mgr s) = Free →
  ∃ v s1,
    ValidateZipPlugin zipPath s = Done (v, None) s1 ∧
    fs s1 = fs s ∧ heap s1 = heap s ∧ mgr s1 = mgr s ∧
    Forall (fun e => e = EvStat (K zipPath)) (added s s1) ∧
    (IsValid v = false ↔ rejected_archive (fs s) zipPath) ∧
    (IsValid v = false →
     ∃ s', InstallPluginFromZip E zipPath name s =
             Done (Some ("invalid plugin: " +:+ Strings.Join (Errors v) ", ")) s' ∧
           fs s' = fs s ∧ heap s' = heap s ∧ mgr s' = mgr s ∧
           trace s' = trace s ++ [EvLock] ++ added s s1 ++ [EvUnlock]) ∧
    (allocated s →
     ∃ r s' rest, InstallPluginFromZip E zipPath name s = Done r s' ∧
                  added s s' = EvLock :: added s s1 ++ rest) ∧
    (∀ n, has_zip_extension zipPath = true →
          Fs.stat_path (fs s) zipPath = Some n →
          n_size n = 99 * 1024 * 1024 → IsValid v = true).
Proof.
  intros Hmu. eexists _, _. split; [apply ValidateZipPlugin_run|].
  rewrite (ValidateZipPlugin_added _ _ _ _ (ValidateZipPlugin_run zipPath s)).
  split; [by destruct (has_zip_extension zipPath)|].
  split; [by destruct (has_zip_extension zipPath)|].
  split; [by destruct (has_zip_extension zipPath)|].
  split; [destruct (has_zip_extension zipPath); repeat constructor|].
  split; [apply validation_of_invalid|].
  split; [|split].
  - intros Hv.
    destruct (InstallPluginFromZip_rejects E zipPath name s Hmu) as (s' & Hrun & H).
    { left. by apply validation_of_invalid. }
    rewrite Hv in Hrun. eauto.
  - intros Ha.
    destruct (InstallPluginFromZip_validates_first E zipPath name s Hmu Ha)
      as (r & s' & rest & Hrun & Htr).
    exists r, s', rest. split; [done|]. by apply added_app.
  - intros n Hext Hst Hsz. unfold validation_of. rewrite Hext, Hst, Hsz. reflexivity.
Qed.

Lemma archive_validation_gate_witness :
  ∃ v s1,
    ValidateZipPlugin "up/demo.zip" fresh_state = Done (v, None) s1 ∧
    fs s1 = fs fresh_state ∧ heap s1 = heap fresh_state ∧ mgr s1 = mgr fresh_state ∧
    Forall (fun e => e = EvStat (K "up/demo.zip")) (added fresh_state s1) ∧
    (IsValid v = false ↔ rejected_archive (fs fresh_state) "up/demo.zip") ∧
    (IsValid v = false →
     ∃ s', InstallPluginFromZip (demo_env "linux" 0) "up/demo.zip" "demo" fresh_state =
             Done (Some ("invalid plugin: " +:+ Strings.Join (Errors v) ", ")) s' ∧
           fs s' = fs fresh_state ∧ heap s' = heap fresh_state ∧
           mgr s' = mgr fresh_state ∧
           trace s' = trace fresh_state ++ [EvLock] ++ added fresh_state s1 ++ [EvUnlock]) ∧
    (allocated fresh_state →
     ∃ r s' rest,
       InstallPluginFromZip (demo_env "linux" 0) "up/demo.zip" "demo" fresh_state = Done r s' ∧
       added fresh_state s' = EvLock :: added fresh_state s1 ++ rest) ∧
    (∀ n, has_zip_extension "up/demo.zip" = true →
          Fs.stat_path (fs fresh_state) "up/demo.zip" = Some n →
          n_size n = 99 * 1024 * 1024 → IsValid v = true).
Proof.
  apply (archive_validation_gate (demo_env "linux" 0) "up/demo.zip" "demo" fresh_state).
  reflexivity.
Defined.

(** C7 as claimed fails: an archive path that names no file is rejected,
    although its extension is [.zip] and there is no file whose size could
    be too large or zero. *)
Lemma archive_validation_missing_file_counterexample :
  ∃ v s1,
    ValidateZipPlugin "ghost.zip" fresh_state = Done (v, None) s1 ∧
    IsValid v = false ∧
    ¬ invalid_for_extension_or_size (fs fresh_state) "ghost.zip".
Proof.
  eexists _, _. split; [apply ValidateZipPlugin_run|]. split; [reflexivity|].
  intros [H|[[n [H _]]|[n [H _]]]]; vm_compute in H; discriminate.
Qed.

Lemma LoadPlugin_locked E name s :
  mu (mgr s) = Free → allocated s → locked_throughout (LoadPlugin E name) s.
Proof.
  intros Hmu Ha. apply (critical_section_locked section_event);
    [apply section_event_no_lock|done|done|].
  steps_go.
Qed.

Lemma LoadPlugins_locked E dir s :
  mu (mgr s) = Free → allocated s → locked_throughout (LoadPlugins E dir) s.
Proof.
  intros Hmu Ha. apply (critical_section_locked section_event);
    [apply section_event_no_lock|done|done|].
  steps_go.
Qed.

Lemma steps_call_Shutdown E p : steps allocated (held_rel no_lock_event) (call_Shutdown E p).
Proof. unfold call_Shutdown. steps_go. Qed.
#[local] Hint Resolve steps_call_Shutdown : steps.

Lemma UnloadPlugin_locked E name s :
  mu (mgr s) = Free → allocated s → locked_throughout (UnloadPlugin E name) s.
Proof.
  intros Hmu Ha. apply (critical_section_locked no_lock_event);
    [apply no_lock_event_no_lock|done|done|].
  steps_go.
Qed.

Lemma UnloadPlugin_section E name s :
  mu (mgr s) = Free → allocated s →
  ∃ r s' mid,
    UnloadPlugin E name s = Done r s' ∧
    mu (mgr s') = Free ∧ allocated s' ∧
    plugins (mgr s') = plugins (mgr s) ∧ clock s <= clock s' ∧
    trace s' = trace s ++ EvLock :: mid ++ [EvUnlock] ∧
    Forall (fun e => no_lock_event e = true) mid.
Proof.
  intros Hmu Ha. apply (critical_section no_lock_event);
    [apply no_lock_event_no_lock|done|done|].
  steps_go.
Qed.

Lemma LoadPlugin_section E name s :
  mu (mgr s) = Free → allocated s →
  ∃ r s' mid,
    LoadPlugin E name s = Done r s' ∧
    mu (mgr s') = Free ∧ allocated s' ∧
    plugins (mgr s') = plugins (mgr s) ∧ clock s <= clock s' ∧
    trace s' = trace s ++ EvLock :: mid ++ [EvUnlock] ∧
    Forall (fun e => section_event e = true) mid.
Proof.
  intros Hmu Ha. apply (critical_section section_event);
    [apply section_event_no_lock|done|done|].
  steps_go.
Qed.

(** Loader code returns, with the footprint [loader_rel]. *)
Lemma loader_returns {A} (m : M A) s :
  steps always loader_rel m → ∃ r s', m s = Done r s' ∧ loader_rel s s'.
Proof.
  intros Hm. specialize (Hm s I). destruct (m s) as [r s'|?|?]; [|done..].
  destruct Hm. eauto.
Qed.

Lemma loader_rel_allocated s s' : loader_rel s s' → allocated s → allocated s'.
Proof. intros (Hh & [lp Hm] & _). apply allocated_same; [done|]. by rewrite Hm. Qed.

Lemma section_under_lock P mid :
  (∀ e, P e = true → is_lock_event e = false) →
  Forall (fun e => P e = true) mid → under_lock (EvLock :: mid ++ [EvUnlock]) = true.
Proof. intros HP H. apply under_lock_intro. eapply Forall_impl; [exact H|]. auto. Qed.

Lemma loader_rel_mu s s' : loader_rel s s' → mu (mgr s') = mu (mgr s).
Proof. intros (_ & [lp ->] & _). done. Qed.

Lemma ReloadPlugin_run E name s :
  mu (mgr s) = Free →
  ReloadPlugin E name s =
    match pluginPaths (mgr s) !! name with
    | None => Done (Some ("plugin " +:+ name +:+ " not found")) (after_path_lookup s)
    | Some pluginPath =>
        (err <- UnloadPlugin E name ;;
         match err with
         | Some e => ret (Some ("failed to unload plugin: " +:+ e))
         | None =>
             err <- RecompilePlugin E pluginPath ;;
             match err with
             | Some e => ret (Some ("failed to recompile plugin: " +:+ e))
             | None => LoadPlugin E pluginPath
             end
         end) (after_path_lookup s)
    end.
Proof.
  intros Hmu. unfold ReloadPlugin.
  erewrite bind_Done; [|unfold mu_RLock; rewrite Hmu; reflexivity].
  erewrite bind_Done; [|reflexivity].
  erewrite bind_Done; [|reflexivity]. simpl.
  by destruct (pluginPaths (mgr s) !! name).
Qed.

Lemma after_path_lookup_facts s :
  mu (mgr s) = Free →
  mgr (after_path_lookup s) = mgr s ∧ heap (after_path_lookup s) = heap s ∧
  fs (after_path_lookup s) = fs s ∧
  trace (after_path_lookup s) = trace s ++ [EvRLock; EvRUnlock] ∧
  clock s <= clock (after_path_lookup s).
Proof.
  intros Hmu. unfold after_path_lookup. simpl. rewrite <- app_assoc.
  rewrite (set_mu_restore _ _ _ Hmu). repeat split; try done. lia.
Qed.

Lemma ReloadPlugin_sections E name s :
  mu (mgr s) = Free → allocated s →
  locks_only_in_calls [EvRLock; EvRUnlock] (ReloadPlugin E name) s.
Proof.
  intros Hmu Ha. unfold locks_only_in_calls. rewrite ReloadPlugin_run by done.
  destruct (after_path_lookup_facts s Hmu) as (Hmgr0 & Hh0 & _ & Htr0 & _).
  set (s0 := after_path_lookup s) in *.
  assert (Hmu0 : mu (mgr s0) = Free) by by rewrite Hmgr0.
  assert (Ha0 : allocated s0) by (eapply allocated_same; [exact Hh0|by rewrite Hmgr0|done]).
  destruct (pluginPaths (mgr s) !! name) as [pluginPath|].
  2:{ split; [done|]. exists [], [], []. rewrite (added_app _ _ _ Htr0). auto. }
  destruct (UnloadPlugin_section E name s0 Hmu0 Ha0)
    as (err & s1 & mid1 & Hrun1 & Hmu1 & Ha1 & _ & _ & Htr1 & Hmid1).
  erewrite bind_Done; [|exact Hrun1].
  pose proof (section_under_lock _ _ no_lock_event_no_lock Hmid1) as Hd1.
  destruct err as [e|].
  { split; [done|]. exists (EvLock :: mid1 ++ [EvUnlock]), [], [].
    erewrite added_app; [|rewrite Htr1, Htr0, <- app_assoc; reflexivity].
    rewrite !app_nil_r. auto. }
  destruct (loader_returns _ s1 (steps_RecompilePlugin E pluginPath))
    as (err & s2 & Hrun2 & H2).
  erewrite bind_Done; [|exact Hrun2].
  pose proof (loader_rel_mu _ _ H2) as Hmu2. rewrite Hmu1 in Hmu2.
  pose proof (loader_rel_allocated _ _ H2 Ha1) as Ha2.
  destruct H2 as (_ & _ & _ & d2 & Htr2 & Hd2).
  destruct err as [e|].
  { split; [done|]. exists (EvLock :: mid1 ++ [EvUnlock]), d2, [].
    erewrite added_app; [|rewrite Htr2, Htr1, Htr0, <- !app_assoc; reflexivity].
    rewrite !app_nil_r. auto. }
  destruct (LoadPlugin_section E pluginPath s2 Hmu2 Ha2)
    as (err & s3 & mid3 & -> & Hmu3 & _ & _ & _ & Htr3 & Hmid3).
  split; [done|]. exists (EvLock :: mid1 ++ [EvUnlock]), d2, (EvLock :: mid3 ++ [EvUnlock]).
  erewrite added_app; [|rewrite Htr3, Htr2, Htr1, Htr0, <- !app_assoc; reflexivity].
  split; [done|]. split; [auto|]. split; [done|]. left.
  by apply (section_under_lock section_event), Hmid3; apply section_event_no_lock.
Qed.

Lemma UninstallPlugin_sections E name s :
  mu (mgr s) = Free → allocated s →
  locks_only_in_calls [] (UninstallPlugin E name) s.
Proof.
  intros Hmu Ha. unfold locks_only_in_calls, UninstallPlugin.
  erewrite bind_Done; [|reflexivity]. erewrite bind_Done; [|reflexivity].
  assert (Hunload : ∃ err s1 d1,
    (match map_read (the_plugins s) s !! name with
     | Some _ =>
         err <- UnloadPlugin E name ;;
         match err with
         | Some e => ret (Some ("failed to unload plugin: " +:+ e))
         | None => ret None
         end
     | None => ret None
     end) s = Done err s1 ∧
    mu (mgr s1) = Free ∧
    trace s1 = trace s ++ d1 ∧ (under_lock d1 = true ∨ d1 = [])).
  { destruct (map_read (the_plugins s) s !! name).
    - destruct (UnloadPlugin_section E name s Hmu Ha)
        as (err & s1 & mid1 & Hrun1 & Hmu1 & _ & _ & _ & Htr1 & Hmid1).
      pose proof (section_under_lock _ _ no_lock_event_no_lock Hmid1) as Hd1.
      erewrite bind_Done; [|exact Hrun1].
      destruct err; simpl; eexists _, s1, _; eauto.
    - exists None, s, []. rewrite app_nil_r. auto. }
  destruct Hunload as (err & s1 & d1 & Hrun1 & Hmu1 & Htr1 & Hd1).
  erewrite bind_Done; [|exact Hrun1].
  destruct err as [e|].
  { split; [done|]. exists d1, [], []. rewrite (added_app _ _ _ Htr1), !app_nil_r. auto. }
  destruct (loader_returns _ s1 (steps_Loader_UninstallPlugin name))
    as (err & s2 & Hrun2 & H2).
  erewrite bind_Done; [|exact Hrun2].
  pose proof (loader_rel_mu _ _ H2) as Hmu2. rewrite Hmu1 in Hmu2.
  destruct H2 as (_ & _ & _ & d2 & Htr2 & Hd2).
  destruct err as [e|]; simpl.
  { split; [done|]. exists d1, d2, [].
    erewrite added_app; [|rewrite Htr2, Htr1, <- !app_assoc; reflexivity].
    rewrite !app_nil_r. auto. }
  split; [done|]. exists d1, d2, [EvLog ("Uninstalled plugin: " +:+ name)].
  erewrite added_app; [|simpl; rewrite Htr2, Htr1, <- !app_assoc; reflexivity].
  split; [done|]. split; [done|]. split; [done|]. right. by repeat constructor.
Qed.




(* --------------------------------------------------------------------- *)
(** *** Reload *)
(* --------------------------------------------------------------------- *)

Lemma bind_Done_inv {A B} (m : M A) (f : A → M B) s b s' :
  bind m f s = Done b s' → ∃ a s1, m s = Done a s1 ∧ f a s1 = Done b s'.
Proof. unfold bind. destruct (m s) as [a s1|s1|s1]; [eauto|done..]. Qed.

Lemma steps_Done I R {A} (m : M A) s a s' :
  steps I R m → I s → m s = Done a s' → R s s'.
Proof. intros Hm HI Hr. specialize (Hm s HI). rewrite Hr in Hm. tauto. Qed.

Lemma registry_allocated s name p :
  registry s !! name = Some p → heap s !! plugins (mgr s) = Some (registry s).
Proof.
  unfold registry, map_read. destruct (heap s !! plugins (mgr s)); [done|].
  simpl. by rewrite lookup_empty.
Qed.

(** [UnloadPlugin] of a registered name. *)
Lemma UnloadPlugin_run E name s old :
  mu (mgr s) = Free →
  registry s !! name = Some old →
  ∃ s1 logs,
    UnloadPlugin E name s = Done None s1 ∧
    trace s1 = trace s ++ [EvLock; EvShutdown old] ++ logs ++ [EvUnlock] ∧
    Forall (fun e => is_log e = true) logs ∧
    fs s1 = fs s ∧
    registry s1 = delete name (registry s) ∧
    pluginPaths (mgr s1) = delete name (pluginPaths (mgr s)) ∧
    loader (mgr s1) = loader (mgr s) ∧ plugins (mgr s1) = plugins (mgr s) ∧
    mu (mgr s1) = Free ∧ clock s <= clock s1.
Proof.
  intros Hmu Hreg. pose proof (registry_allocated _ _ _ Hreg) as Hheap.
  unfold UnloadPlugin, with_Lock.
  erewrite bind_Done; [|unfold mu_Lock; rewrite Hmu; reflexivity].
  set (s0 := emit EvLock _).
  assert (Hget : map_get (the_plugins s0) name s0 = Done (Some old) s0).
  { unfold map_get. f_equal. exact Hreg. }
  unfold bind at 1. unfold bind at 1. unfold get at 1.
  unfold bind at 1. rewrite Hget.
  unfold bind at 1. unfold bind at 1. unfold call_Shutdown at 1. unfold bind at 1.
  unfold get at 1. unfold bind at 1. unfold event at 1, modify at 1, ret at 1.
  set (s1 := emit (EvShutdown old) s0).
  assert (Hlt : (plugins (mgr s) < length (heap s))%nat) by by eapply lookup_lt_Some.
  destruct (Shutdown E (clock s0) old) as [e|]; unfold bind, log_Printf, event, modify,
    map_delete, mu_Unlock, ret; simpl.
  - eexists _, [_; _]. split; [reflexivity|]. simpl.
    rewrite <- !app_assoc. simpl. split; [done|]. split; [by repeat constructor|].
    split; [done|]. split.
    { unfold registry at 1, map_read. simpl.
      change (the_plugins s0) with (plugins (mgr s)). rewrite Hheap.
      by rewrite list_lookup_insert_eq. }
    repeat split; try done. lia.
  - eexists _, [_]. split; [reflexivity|]. simpl.
    rewrite <- !app_assoc. simpl. split; [done|]. split; [by repeat constructor|].
    split; [done|]. split.
    { unfold registry at 1, map_read. simpl.
      change (the_plugins s0) with (plugins (mgr s)). rewrite Hheap.
      by rewrite list_lookup_insert_eq. }
    repeat split; try done. lia.
Qed.

Lemma os_Remove_run p s :
  ∃ r s2,
    os_Remove p s = Done r s2 ∧
    trace s2 = trace s ++ [EvRemove (K p)] ∧
    heap s2 = heap s ∧ mgr s2 = mgr s ∧ clock s2 = clock s + 1 ∧
    ((∀ n, Fs.stat_path (fs s) p = Some n → n_dir n = false) →
     Fs.stat_path (fs s2) p = None).
Proof.
  unfold os_Remove, Fs.stat_path, K. run. destruct (String.eqb p "") eqn:Hp; simpl.
  { eexists _, _. split; [reflexivity|]. simpl. by rewrite ?Hp. }
  unfold Fs.remove. destruct (Filepath.path_key p) as [|c k] eqn:HK; simpl.
  { eexists _, _. split; [reflexivity|]. simpl. rewrite ?Hp.
    repeat split; try done. intros H. specialize (H _ eq_refl). done. }
  destruct (fs s !! (c :: k)) as [n|] eqn:Hn; simpl.
  2:{ eexists _, _. split; [reflexivity|]. simpl. rewrite ?Hp.
      repeat split; try done. }
  destruct (n_dir n && Fs.has_children (fs s) (c :: k)) eqn:Hd; simpl.
  - eexists _, _. split; [reflexivity|]. simpl. rewrite ?Hp.
    repeat split; try done. intros H. specialize (H _ eq_refl).
    rewrite H in Hd. done.
  - eexists _, _. split; [reflexivity|]. simpl. rewrite ?Hp.
    repeat split; try done. intros _. apply lookup_delete_eq.
Qed.

Lemma filter_none {A} (f : A → bool) l :
  Forall (fun x => f x = false) l → List.filter f l = [].
Proof.
  induction 1 as [|x l Hx _ IH]; simpl; [done|]. by rewrite Hx.
Qed.

Lemma loader_event_not_shutdown e : loader_event e = true → is_shutdown e = false.
Proof. by destruct e. Qed.
Lemma section_event_not_shutdown e : section_event e = true → is_shutdown e = false.
Proof. by destruct e. Qed.
Lemma is_log_not_shutdown e : is_log e = true → is_shutdown e = false.
Proof. by destruct e. Qed.

(** A plugin returned by [open_and_construct] comes from a constructor call
    made during it. *)
Lemma open_and_construct_inl E p s i s' :
  open_and_construct E p s = Done (inl i) s' →
  ∃ h t d, clock s <= t ∧ new_plugin E t h = Some i ∧
           trace s' = trace s ++ d ++ [EvNewPlugin h (Some i)].
Proof.
  unfold open_and_construct, plugin_Open, call_NewPlugin. run.
  destruct (dl_open E _ _ p) as [h|e]; [|done]. simpl.
  destruct (dl_lookup E h); [done..|]. simpl.
  destruct (new_plugin E (clock s + 1) h) as [j|] eqn:Hnew; [|done].
  intros [= <- <-]. exists h, (clock s + 1), [EvPluginOpen p].
  split; [lia|]. split; [done|]. simpl. by rewrite <- app_assoc.
Qed.

Lemma LoadPluginFromDirectory_inl E name s i s' :
  LoadPluginFromDirectory E name s = Done (inl i) s' →
  ∃ h t d, clock s <= t ∧ new_plugin E t h = Some i ∧
           trace s' = trace s ++ d ++ [EvNewPlugin h (Some i)].
Proof.
  unfold LoadPluginFromDirectory. intros H.
  apply bind_Done_inv in H as (l & s0 & [= <- <-] & H).
  apply bind_Done_inv in H as (st & s1 & Hst & H).
  pose proof (steps_Done _ _ _ _ _ _ (steps_os_Stat _) I Hst) as (_ & _ & Hc1 & d1 & Ht1 & _).
  destruct st as [n|]; [|done].
  apply bind_Done_inv in H as (r & s2 & Hr & H).
  pose proof (steps_Done _ _ _ _ _ _ (steps_CompileWithCache _ _ _) I Hr)
    as (_ & _ & Hc2 & d2 & Ht2 & _).
  destruct (snd r); [done|].
  apply open_and_construct_inl in H as (h & t & d & Ht & Hnew & Htr).
  exists h, t, (d1 ++ d2 ++ d). split; [lia|]. split; [done|].
  rewrite Htr, Ht2, Ht1, <- !app_assoc. done.
Qed.

Lemma call_Initialize_run E i s r s' :
  call_Initialize E i s = Done r s' → s' = emit (EvInitialize i) s.
Proof. unfold call_Initialize. run. by intros [= _ <-]. Qed.

Lemma store_plugin_run name i dir s u s' :
  store_plugin name i dir s = Done u s' →
  registry s' !! name = Some i ∧ trace s' = trace s ∧ clock s' = clock s ∧
  mu (mgr s') = mu (mgr s).
Proof.
  unfold store_plugin, map_set. run. unfold the_plugins.
  destruct (heap s !! plugins (mgr s)) as [m|] eqn:Hm; [|done]. intros [= <- <-].
  unfold registry, map_read. simpl.
  rewrite list_lookup_insert_eq by by eapply lookup_lt_Some. simpl.
  by rewrite lookup_insert_eq.
Qed.

Lemma registerPluginRoutes_run name i s u s' :
  registerPluginRoutes name i s = Done u s' →
  registry s' = registry s ∧ mu (mgr s') = mu (mgr s) ∧
  ∃ d, trace s' = trace s ++ d.
Proof.
  unfold registerPluginRoutes. run. destruct (router (mgr s)); simpl; intros [= <- <-].
  - repeat split; eauto.
  - repeat split. exists []. by rewrite app_nil_r.
Qed.

(** A successful [LoadPlugin] registers the object its constructor call
    returned, under the name the object reports. *)
Lemma LoadPlugin_success E dir s s' :
  mu (mgr s) = Free →
  LoadPlugin E dir s = Done None s' →
  ∃ new h t d d',
    clock s <= t ∧ new_plugin E t h = Some new ∧
    trace s' = trace s ++ d ++ EvNewPlugin h (Some new) :: d' ∧
    registry s' !! Name (GetInfo E new) = Some new.
Proof.
  intros Hmu H. unfold LoadPlugin, with_Lock in H.
  apply bind_Done_inv in H as ([] & s0 & Hlock & H).
  unfold mu_Lock in Hlock. rewrite Hmu in Hlock. injection Hlock as <-.
  apply bind_Done_inv in H as (result & s1 & Hbody & H).
  apply bind_Done_inv in H as ([] & s2 & Hunlock & H).
  injection H as -> <-.
  assert (Hreg2 : registry s2 = registry s1 ∧ trace s2 = trace s1 ++ [EvUnlock]).
  { unfold mu_Unlock in Hunlock. destruct (mu (mgr s1)); try done.
    by injection Hunlock as <-. }
  destruct Hreg2 as [-> Htr2]. clear Hunlock.
  apply bind_Done_inv in Hbody as (l & s0' & [= <- <-] & H).
  apply bind_Done_inv in H as (existing & s0' & [= <- <-] & H).
  destruct (map_read _ _ !! dir); [done|].
  apply bind_Done_inv in H as (r & s3 & Hload & H).
  destruct r as [i|e]; [|done].
  apply LoadPluginFromDirectory_inl in Hload as (h & t & d & Ht & Hnew & Htr3).
  apply bind_Done_inv in H as (dp & s3' & [= <- <-] & H).
  apply bind_Done_inv in H as (err & s4 & Hinit & H).
  assert (∃ d4, trace s4 = trace s3 ++ d4) as [d4 Htr4].
  { destruct (deps (mgr s3)).
    - apply call_Initialize_run in Hinit as ->. by eexists.
    - injection Hinit as _ <-. exists []. by rewrite app_nil_r. }
  destruct err as [e|]; [done|].
  apply bind_Done_inv in H as ([] & s5 & Hstore & H).
  apply store_plugin_run in Hstore as (Hreg5 & Htr5 & _ & _).
  apply bind_Done_inv in H as ([] & s6 & Hroutes & H).
  apply registerPluginRoutes_run in Hroutes as (Hreg6 & _ & d6 & Htr6).
  apply bind_Done_inv in H as ([] & s7 & Hlog & H).
  injection Hlog as <-. injection H as <-.
  exists i, h, t, (EvLock :: d), (d4 ++ d6 ++ [EvLog ("Loaded plugin: " +:+ Name (GetInfo E i)
                                        +:+ " v" +:+ Version (GetInfo E i)); EvUnlock]).
  split; [simpl in Ht; lia|]. split; [done|]. split.
  - rewrite Htr2. simpl. rewrite Htr6, Htr5, Htr4, Htr3. simpl.
    repeat (rewrite <- app_assoc; simpl). done.
  - change (registry (emit _ s6)) with (registry s6). by rewrite Hreg6.
Qed.

Lemma registry_same s s' :
  heap s' = heap s → plugins (mgr s') = plugins (mgr s) → registry s' = registry s.
Proof. unfold registry, map_read. by intros -> ->. Qed.

(** What is left of [ReloadPlugin] once the module file is removed. *)
Lemma recompile_after_removal E dir s1 r2 s2 :
  os_Remove (Filepath.Join (buildDir (loader (mgr s1))) (dir +:+ ".so")) s1 = Done r2 s2 →
  mgr s2 = mgr s1 →
  (err <- RecompilePlugin E dir ;;
   match err with
   | Some e => ret (Some ("failed to recompile plugin: " +:+ e))
   | None => LoadPlugin E dir
   end) s1 = recompile_and_load E dir s2.
Proof.
  intros Hrm Hmgr. unfold RecompilePlugin, recompile_and_load.
  rewrite bind_assoc. erewrite bind_Done; [|reflexivity].
  rewrite bind_assoc. erewrite bind_Done; [|exact Hrm].
  rewrite bind_assoc. erewrite (bind_Done (get the_loader)); [|reflexivity].
  unfold the_loader. rewrite Hmgr. unfold bind.
  destruct (CompilePlugin E _ dir s2) as [r ?|?|?]; [|done..]. by destruct (snd r).
Qed.

(** The end of a reload: compile, then load; no [Shutdown], and on success
    the registry holds a newly constructed object. *)
Lemma recompile_and_load_returns E dir s2 :
  mu (mgr s2) = Free → allocated s2 →
  ∃ r s' d,
    recompile_and_load E dir s2 = Done r s' ∧
    trace s' = trace s2 ++ d ∧
    Forall (fun e => is_shutdown e = false) d ∧
    (r = None →
     ∃ new h t, clock s2 <= t ∧ new_plugin E t h = Some new ∧
                EvNewPlugin h (Some new) ∈ d ∧
                registry s' !! Name (GetInfo E new) = Some new).
Proof.
  intros Hmu Ha. unfold recompile_and_load.
  erewrite bind_Done; [|reflexivity].
  destruct (loader_returns _ s2 (steps_CompilePlugin E
              (Filepath.Join (pluginDir (the_loader s2)) dir) dir))
    as (r3 & s3 & Hrun3 & H3).
  erewrite bind_Done; [|exact Hrun3].
  pose proof (loader_rel_mu _ _ H3) as Hmu3. rewrite Hmu in Hmu3.
  pose proof (loader_rel_allocated _ _ H3 Ha) as Ha3.
  destruct H3 as (_ & _ & Hck3 & d3 & Htr3 & Hd3).
  assert (Hd3' : Forall (fun e => is_shutdown e = false) d3).
  { eapply Forall_impl; [exact Hd3|]. apply loader_event_not_shutdown. }
  destruct (snd r3) as [e|].
  { eexists _, s3, d3. split; [reflexivity|]. repeat split; try done. }
  destruct (LoadPlugin_section E dir s3 Hmu3 Ha3)
    as (r & s' & mid & Hrun & _ & _ & _ & _ & Htr & Hmid).
  exists r, s', (d3 ++ EvLock :: mid ++ [EvUnlock]). split; [exact Hrun|].
  split; [by rewrite Htr, Htr3, <- app_assoc|]. split.
  { apply Forall_app. split; [done|]. constructor; [done|]. apply Forall_app. split.
    - eapply Forall_impl; [exact Hmid|]. apply section_event_not_shutdown.
    - by repeat constructor. }
  intros ->.
  destruct (LoadPlugin_success E dir s3 s' Hmu3 Hrun)
    as (new & h & t & d & d' & Ht & Hnew & Htr' & Hreg).
  exists new, h, t. split; [lia|]. split; [done|]. split; [|done].
  rewrite Htr in Htr'. apply app_inv_head in Htr'. rewrite Htr'.
  apply elem_of_app. right. apply elem_of_app. right. by left.
Qed.



(* --------------------------------------------------------------------- *)
(** *** Paths *)
(* --------------------------------------------------------------------- *)

Lemma split_slash_nonempty s : Filepath.split_slash s ≠ [].
Proof.
  destruct s as [|a s]; simpl; [done|].
  destruct (Ascii.eqb a "/"); [done|]. by destruct (Filepath.split_slash s).
Qed.

Lemma split_slash_app a b :
  Filepath.split_slash (a +:+ "/" +:+ b) = Filepath.split_slash a ++ Filepath.split_slash b.
Proof.
  induction a as [|c a IH]; simpl; [done|].
  destruct (Ascii.eqb c "/"); [by rewrite IH|].
  rewrite IH. pose proof (split_slash_nonempty a).
  by destruct (Filepath.split_slash a).
Qed.

Lemma split_slash_head s x xs :
  Filepath.split_slash s = x :: xs → ∃ post, s = x +:+ post.
Proof.
  revert x xs. induction s as [|a s IH]; simpl; intros x xs.
  - intros [= <- <-]. by exists "".
  - destruct (Ascii.eqb a "/") eqn:Ha.
    + intros [= <- <-]. by eexists.
    + destruct (Filepath.split_slash s) as [|y ys] eqn:Hs; intros [= <- <-].
      * by destruct (split_slash_nonempty s).
      * destruct (IH _ _ eq_refl) as [post ->]. by exists post.
Qed.

Lemma split_slash_elem s c :
  c ∈ Filepath.split_slash s → ∃ pre post, s = pre +:+ c +:+ post.
Proof.
  revert c. induction s as [|a s IH]; simpl; intros c Hc.
  - apply list_elem_of_singleton in Hc as ->. by exists "", "".
  - destruct (Ascii.eqb a "/") eqn:Ha.
    + apply elem_of_cons in Hc as [->|Hc].
      * by exists "", (String a s).
      * destruct (IH _ Hc) as (pre & post & ->). by exists (String a pre), post.
    + destruct (Filepath.split_slash s) as [|y ys] eqn:Hs.
      { by destruct (split_slash_nonempty s). }
      apply elem_of_cons in Hc as [->|Hc].
      * destruct (split_slash_head _ _ _ Hs) as [post ->]. by exists "", post.
      * destruct (IH c) as (pre & post & ->); [by right|]. by exists (String a pre), post.
Qed.

Lemma prefix_app_true a b : String.prefix a (a +:+ b) = true.
Proof.
  induction a as [|c a IH]; simpl; [by destruct b|].
  destruct (ascii_dec c c); [done|congruence].
Qed.

Lemma Contains_prefix s sub : String.prefix sub s = true → Strings.Contains s sub = true.
Proof. destruct s; simpl; by intros ->. Qed.

Lemma Contains_intro pre sub post : Strings.Contains (pre +:+ sub +:+ post) sub = true.
Proof.
  induction pre as [|c pre IH].
  - apply Contains_prefix. exact (prefix_app_true sub post).
  - simpl. rewrite IH. apply orb_true_r.
Qed.

Lemma Contains_dotdot_element p :
  ".." ∈ Filepath.split_slash p → Strings.Contains p ".." = true.
Proof. intros H. apply split_slash_elem in H as (pre & post & ->). apply Contains_intro. Qed.

Lemma split_slash_free s : Forall (fun c => slash_free c = true) (Filepath.split_slash s).
Proof.
  induction s as [|a s IH]; simpl; [by repeat constructor|].
  destruct (Ascii.eqb a "/") eqn:Ha; [by constructor|].
  destruct (Filepath.split_slash s) as [|x xs].
  - repeat constructor. simpl. by rewrite Ha.
  - inversion_clear IH. constructor; [|done]. simpl. by rewrite Ha.
Qed.

Lemma split_slash_single x : slash_free x = true → Filepath.split_slash x = [x].
Proof.
  induction x as [|a x IH]; simpl; [done|].
  intros [Ha Hx]%andb_true_iff. apply negb_true_iff in Ha. rewrite Ha, (IH Hx). done.
Qed.

Lemma split_slash_Join cs :
  cs ≠ [] → Forall (fun c => slash_free c = true) cs →
  Filepath.split_slash (Strings.Join cs "/") = cs.
Proof.
  induction cs as [|x [|y rest] IH]; intros Hne Hcs; [done|..].
  - inversion_clear Hcs. by apply split_slash_single.
  - inversion_clear Hcs as [|?? Hx Hrest].
    change (Strings.Join (x :: y :: rest) "/")
      with (x +:+ "/" +:+ Strings.Join (y :: rest) "/").
    rewrite split_slash_app, (split_slash_single x Hx), IH; done.
Qed.

Lemma plain_slash_free c : plain c → slash_free c = true.
Proof. by intros (_ & _ & _ & ?). Qed.

Lemma clean_step_plain r st c : plain c → Filepath.clean_step r st c = c :: st.
Proof.
  intros (H1 & H2 & H3 & _). unfold Filepath.clean_step.
  apply String.eqb_neq in H1, H2, H3. by rewrite H1, H2, H3.
Qed.

Lemma clean_fold_plain r cs : ∀ st,
  Forall plain cs → fold_left (Filepath.clean_step r) cs st = rev cs ++ st.
Proof.
  induction cs as [|c cs IH]; intros st Hcs; simpl; [done|].
  inversion_clear Hcs. rewrite clean_step_plain, IH by done. by rewrite <- app_assoc.
Qed.

Lemma clean_fold_dots dots : ∀ st,
  Forall (fun c => c = "..") dots → Forall (fun c => c = "..") st →
  fold_left (Filepath.clean_step false) dots st = rev dots ++ st.
Proof.
  induction dots as [|c dots IH]; intros st Hd Hst; simpl; [done|].
  inversion_clear Hd as [|?? -> Hd']. rewrite <- app_assoc. simpl.
  destruct st as [|top rest]; simpl.
  - by apply IH; [|repeat constructor].
  - inversion Hst as [|?? -> Hrest]; subst. simpl. apply IH; [done|]. by repeat constructor.
Qed.

Lemma all_equal_snoc (x : string) l : Forall (fun c => c = x) l → l ++ [x] = x :: l.
Proof. induction 1 as [|c l -> _ IH]; simpl; [done|]. by rewrite IH. Qed.

Lemma rev_all_equal (x : string) l : Forall (fun c => c = x) l → rev l = l.
Proof.
  induction 1 as [|c l -> Hl IH]; simpl; [done|]. rewrite IH. by apply all_equal_snoc.
Qed.

Lemma clean_step_ok r st c :
  slash_free c = true → stack_ok r st → stack_ok r (Filepath.clean_step r st c).
Proof.
  intros Hc (ps & ds & -> & Hps & Hds & Hr). unfold Filepath.clean_step.
  destruct (String.eqb_spec c ""); simpl; [by exists ps, ds|].
  destruct (String.eqb_spec c "."); simpl; [by exists ps, ds|].
  destruct (String.eqb_spec c "..") as [->|Hdd].
  - destruct ps as [|top ps]; simpl.
    + destruct ds as [|top ds].
      * destruct r; [by exists [], []|]. exists [], [".."]. by repeat constructor.
      * inversion Hds as [|?? -> Hds']; subst. simpl.
        exists [], (".." :: ".." :: ds). repeat split; try done.
        -- by repeat constructor.
        -- intros Hrt. by specialize (Hr Hrt).
    + inversion_clear Hps as [|?? Htop Hps'].
      destruct (String.eqb_spec top ".."); [by destruct Htop as (_ & _ & ? & _)|].
      by exists ps, ds.
  - exists (c :: ps), ds. repeat split; try done. by constructor.
Qed.

Lemma clean_fold_ok r cs : ∀ st,
  Forall (fun c => slash_free c = true) cs → stack_ok r st →
  stack_ok r (fold_left (Filepath.clean_step r) cs st).
Proof.
  induction cs as [|c cs IH]; intros st Hcs Hst; simpl; [done|].
  inversion_clear Hcs. apply IH; [done|]. by apply clean_step_ok.
Qed.

Lemma path_key_clean p : clean_key (Filepath.path_key p).
Proof.
  unfold Filepath.path_key, Filepath.clean_stack.
  destruct (clean_fold_ok (Filepath.is_rooted p) (Filepath.split_slash p) [])
    as (ps & ds & -> & Hps & Hds & Hr).
  { apply split_slash_free. }
  { exists [], []. by repeat constructor. }
  rewrite rev_app_distr. destruct (Filepath.is_rooted p).
  - rewrite (Hr eq_refl). left. exists (rev ps). split; [done|].
    apply Forall_forall. intros c Hc. rewrite Forall_forall in Hps. apply Hps.
    apply list_elem_of_In. apply list_elem_of_In, in_rev in Hc. done.
  - right. exists (rev ds), (rev ps). split; [done|]. split.
    + by rewrite (rev_all_equal ".." ds Hds).
    + apply Forall_forall. intros c Hc. rewrite Forall_forall in Hps. apply Hps.
      apply list_elem_of_In. apply list_elem_of_In, in_rev in Hc. done.
Qed.

Lemma is_rooted_String a tl : Filepath.is_rooted (String a tl) = Ascii.eqb a "/".
Proof.
  unfold Filepath.is_rooted. cbn [String.prefix].
  destruct (ascii_dec "/" a) as [<-|Hne]; [by destruct tl|].
  symmetry. apply Ascii.eqb_neq. congruence.
Qed.

Lemma Join_not_rooted x rest :
  x ≠ "" → slash_free x = true → Filepath.is_rooted (Strings.Join (x :: rest) "/") = false.
Proof.
  intros Hx Hsf. destruct x as [|a x]; [done|].
  simpl in Hsf. apply andb_true_iff in Hsf as [Ha _]. apply negb_true_iff in Ha.
  assert (∃ tl, Strings.Join (String a x :: rest) "/" = String a tl) as [tl ->].
  { destruct rest; simpl; eauto. }
  by rewrite is_rooted_String.
Qed.

Lemma dots_slash_free dots :
  Forall (fun c => c = "..") dots → Forall (fun c => slash_free c = true) dots.
Proof. intros H. eapply Forall_impl; [exact H|]. by intros ? ->. Qed.

(** A cleaned path is read back as itself. *)
Lemma path_key_render k : clean_key k → Filepath.path_key (Filepath.render k) = k.
Proof.
  intros [(cs & -> & Hcs)|(dots & cs & -> & Hdots & Hcs)].
  - unfold Filepath.render. simpl String.eqb. cbv iota.
    unfold Filepath.path_key, Filepath.clean_stack.
    change ("/" +:+ Strings.Join cs "/") with (String "/" (Strings.Join cs "/")).
    rewrite is_rooted_String.
    change (Filepath.split_slash (String "/" (Strings.Join cs "/")))
      with ("" :: Filepath.split_slash (Strings.Join cs "/")).
    change (Ascii.eqb "/" "/") with true. cbv iota.
    destruct cs as [|c cs]; [reflexivity|].
    rewrite split_slash_Join; [|discriminate|].
    2:{ eapply Forall_impl; [exact Hcs|]. apply plain_slash_free. }
    change (fold_left (Filepath.clean_step true) ("" :: c :: cs) [])
      with (fold_left (Filepath.clean_step true) (c :: cs) []).
    rewrite (clean_fold_plain true (c :: cs) [] Hcs). by rewrite app_nil_r, rev_involutive.
  - destruct (dots ++ cs) as [|x rest] eqn:Hk; [done|].
    assert (Hx : x ≠ "" ∧ slash_free x = true ∧ x ≠ "/").
    { destruct dots as [|d dots]; simpl in Hk.
      - subst cs. inversion_clear Hcs as [|?? (? & ? & ? & Hsf) _].
        repeat split; try done. by intros ->.
      - injection Hk as -> _. inversion_clear Hdots as [|?? -> _]. done. }
    destruct Hx as (Hx1 & Hx2 & Hx3).
    unfold Filepath.render. apply String.eqb_neq in Hx3. rewrite Hx3.
    unfold Filepath.path_key, Filepath.clean_stack.
    rewrite Join_not_rooted by done. rewrite split_slash_Join; [|done|].
    2:{ rewrite <- Hk. apply Forall_app. split; [by apply dots_slash_free|].
        eapply Forall_impl; [exact Hcs|]. apply plain_slash_free. }
    rewrite <- Hk, fold_left_app.
    rewrite (clean_fold_dots dots [] Hdots (Forall_nil_2 _)), (clean_fold_plain _ _ _ Hcs).
    rewrite app_nil_r. simpl. rewrite rev_app_distr, !rev_involutive. done.
Qed.

Lemma path_key_Clean p : Filepath.path_key (Filepath.Clean p) = Filepath.path_key p.
Proof. apply path_key_render, path_key_clean. Qed.

(** Elements other than [".."] only ever extend what [Clean] has kept. *)
Lemma clean_fold_extends r cs : ∀ st,
  ".." ∉ cs → ∃ ext, fold_left (Filepath.clean_step r) cs st = ext ++ st.
Proof.
  induction cs as [|c cs IH]; intros st Hcs; simpl; [by exists []|].
  apply not_elem_of_cons in Hcs as [Hc Hcs].
  assert (∃ e, Filepath.clean_step r st c = e ++ st) as [e ->].
  { unfold Filepath.clean_step. destruct (_ || _); [by exists []|].
    destruct (String.eqb_spec c ".."); [done|]. by exists [c]. }
  destruct (IH (e ++ st) Hcs) as [ext ->]. exists (ext ++ e). by rewrite app_assoc.
Qed.

Lemma is_rooted_app a b : a ≠ "" → Filepath.is_rooted (a +:+ b) = Filepath.is_rooted a.
Proof.
  destruct a as [|c a]; [done|]. intros _.
  change (String c a +:+ b) with (String c (a +:+ b)). by rewrite !is_rooted_String.
Qed.

(** Joining a directory with a cleaned name that has no [".."] in it stays
    inside the directory. *)
Lemma Join_inside dir name :
  Strings.Contains (Filepath.Clean name) ".." = false →
  inside dir (K (Filepath.Join dir (Filepath.Clean name))).
Proof.
  intros Hno. unfold inside, K, Filepath.Join.
  destruct (String.eqb_spec dir "") as [->|Hdir]; [apply prefix_nil|].
  rewrite path_key_Clean. unfold Filepath.path_key, Filepath.clean_stack.
  rewrite is_rooted_app by done. rewrite split_slash_app, fold_left_app.
  destruct (clean_fold_extends (Filepath.is_rooted dir)
              (Filepath.split_slash (Filepath.Clean name))
              (fold_left (Filepath.clean_step (Filepath.is_rooted dir))
                         (Filepath.split_slash dir) [])) as [ext ->].
  { intros Hin. apply Contains_dotdot_element in Hin. congruence. }
  rewrite rev_app_distr, app_assoc. by apply prefix_app_r.
Qed.

(* --------------------------------------------------------------------- *)
(** *** Extraction *)
(* --------------------------------------------------------------------- *)

Lemma outside_kept_refl dir f : outside_kept dir f f.
Proof. intros k _. by left. Qed.

Lemma outside_kept_trans dir f1 f2 f3 :
  outside_kept dir f1 f2 → outside_kept dir f2 f3 → outside_kept dir f1 f3.
Proof.
  intros H12 H23 k Hk. destruct (H12 k Hk) as [E12|(Hn & n & Hs & Hd)];
    destruct (H23 k Hk) as [E23|(Hn' & n' & Hs' & Hd')].
  - left. congruence.
  - right. split; [congruence|]. eauto.
  - right. split; [done|]. exists n. split; [congruence|done].
  - congruence.
Qed.

#[local] Instance extract_rel_preorder dir : PreOrder (extract_rel dir).
Proof.
  split.
  - intros s. split; [apply grew_refl|apply outside_kept_refl].
  - intros s1 s2 s3 [Hg1 Ho1] [Hg2 Ho2].
    split; [by eapply grew_trans|by eapply outside_kept_trans].
Qed.

Lemma mkdir_all_kept f now mode rk f' :
  Fs.mkdir_all f now mode rk = Some f' →
  ∀ k, f' !! k = f !! k ∨ (f !! k = None ∧ ∃ n, f' !! k = Some n ∧ n_dir n = true).
Proof.
  revert f'. induction rk as [|c rk IH]; intros f'; cbn [Fs.mkdir_all].
  - intros [= <-] k. by left.
  - destruct (f !! rev (c :: rk)) as [n|] eqn:Hn.
    + destruct (n_dir n); [|done]. intros [= <-] k. by left.
    + destruct (Fs.mkdir_all f now mode rk) as [f1|]; [|done].
      intros [= <-] k. destruct (decide (k = rev (c :: rk))) as [->|Hne].
      * right. split; [done|]. rewrite lookup_insert_eq. eauto.
      * rewrite lookup_insert_ne by done. by apply IH.
Qed.

Lemma remove_all_outside f k j : ¬ k `prefix_of` j → Fs.remove_all f k !! j = f !! j.
Proof.
  intros Hj. unfold Fs.remove_all. apply option_eq. intros n.
  rewrite map_lookup_filter_Some. simpl. split; [by intros [? _]|intros ?; split; [done|]].
  intros Hk. by apply Hj.
Qed.

Section Extract.
Variable dir : string.

Lemma extract_rel_emit e s : writes_inside dir e = true → extract_rel dir s (emit e s).
Proof. intros He. split; [by apply grew_emit|apply outside_kept_refl]. Qed.

Lemma extract_rel_fs e f' s :
  writes_inside dir e = true → outside_kept dir (fs s) f' →
  extract_rel dir s (set_fs (fun _ => f') (emit e s)).
Proof.
  intros He Hf. split; [|done]. split; [simpl; lia|]. exists [e]. by repeat constructor.
Qed.

Lemma extract_os_RemoveAll : steps always (extract_rel dir) (os_RemoveAll dir).
Proof.
  intros s _. unfold os_RemoveAll. run.
  destruct (String.eqb dir ""); simpl; [split; [by apply extract_rel_emit|done]|].
  destruct (_ || _); simpl; (split; [|done]); [by apply extract_rel_emit|].
  apply (extract_rel_fs (EvRemoveAll (K dir))); [done|].
  intros k Hk. left. by apply remove_all_outside.
Qed.

Lemma extract_os_MkdirAll p mode : steps always (extract_rel dir) (os_MkdirAll p mode).
Proof.
  intros s _. unfold os_MkdirAll. run.
  destruct (String.eqb p ""); simpl; [split; [by apply extract_rel_emit|done]|].
  destruct (Fs.mkdir_all _ _ _ _) as [f'|] eqn:Hmk; simpl; (split; [|done]);
    [|by apply extract_rel_emit].
  apply (extract_rel_fs (EvMkdirAll (K p))); [done|].
  intros k _. by eapply mkdir_all_kept.
Qed.

Lemma extract_os_WriteFile p size mode :
  inside dir (K p) → steps always (extract_rel dir) (os_WriteFile p size mode).
Proof.
  intros Hin s _. unfold os_WriteFile. run.
  assert (Hev : writes_inside dir (EvWriteFile (K p)) = true) by by apply bool_decide_eq_true_2.
  destruct (String.eqb p ""); simpl; [split; [by apply extract_rel_emit|done]|].
  unfold Fs.create.
  destruct (Fs.stat (fs s) (K p)) as [n|]; simpl.
  - destruct (n_dir n); simpl; (split; [|done]); [by apply extract_rel_emit|].
    apply (extract_rel_fs (EvWriteFile (K p))); [done|].
    intros k Hk. left. apply lookup_insert_ne. by intros <-.
  - destruct (Fs.is_dir _ _); simpl; (split; [|done]); [|by apply extract_rel_emit].
    apply (extract_rel_fs (EvWriteFile (K p))); [done|].
    intros k Hk. left. apply lookup_insert_ne. by intros <-.
Qed.

Lemma extract_io_Copy p size fails :
  inside dir (K p) → steps always (extract_rel dir) (io_Copy p size fails).
Proof.
  intros Hin s _. unfold io_Copy. run. split; [|done].
  assert (Hev : writes_inside dir (EvWriteFile (K p)) = true) by by apply bool_decide_eq_true_2.
  split; [split; [simpl; lia|]; exists [EvWriteFile (K p)]; by repeat constructor|].
  simpl. intros k Hk. left. destruct (fs s !! K p); [|done].
  apply lookup_insert_ne. by intros <-.
Qed.

Lemma extract_zip_OpenReader E p : steps always (extract_rel dir) (zip_OpenReader E p).
Proof. intros s _. unfold zip_OpenReader. run. split; [by apply extract_rel_emit|done]. Qed.

(** [extractFile] writes inside its destination directory only. *)
Lemma extract_extractFile file : steps always (extract_rel dir) (extractFile file dir).
Proof.
  unfold extractFile.
  destruct (Strings.Contains _ "..") eqn:Hno; [apply steps_ret; apply _|].
  pose proof (Join_inside dir (zf_Name file) Hno) as Hin.
  destruct (zf_IsDir file); [apply extract_os_MkdirAll|].
  apply steps_bind; [apply _|apply extract_os_MkdirAll|]. intros [e|]; [apply steps_ret; apply _|].
  destruct (zf_open_fails file); [apply steps_ret; apply _|].
  apply steps_bind; [apply _|by apply extract_os_WriteFile|].
  intros [e|]; [apply steps_ret; apply _|]. by apply extract_io_Copy.
Qed.
End Extract.

(** The part of [ExtractZipPlugin] after the plugin directory is named. *)
Lemma extract_body_steps E zipPath dir :
  steps always (extract_rel dir)
    (err <- os_RemoveAll dir ;;
     match err with
     | Some e => ret ("", Some ("failed to clean plugin directory: " +:+ e))
     | None =>
         err <- os_MkdirAll dir 493 ;;
         match err with
         | Some e => ret ("", Some ("failed to create plugin directory: " +:+ e))
         | None =>
             reader <- zip_OpenReader E zipPath ;;
             match reader with
             | None =>
                 ret ("", Some ("failed to open zip file: zip: not a valid zip file"))
             | Some files =>
                 err <- for_each (fun file =>
                          err <- extractFile file dir ;;
                          match err with
                          | Some e => ret (Some ("failed to extract file "
                                                 +:+ zf_Name file +:+ ": " +:+ e))
                          | None => ret None
                          end) files ;;
                 match err with
                 | Some e => ret ("", Some e)
                 | None => ret (dir, None)
                 end
             end
         end
     end).
Proof.
  apply steps_bind; [apply _|apply extract_os_RemoveAll|].
  intros [e|]; [apply steps_ret; apply _|].
  apply steps_bind; [apply _|apply extract_os_MkdirAll|].
  intros [e|]; [apply steps_ret; apply _|].
  apply steps_bind; [apply _|apply extract_zip_OpenReader|].
  intros [files|]; [|apply steps_ret; apply _].
  apply steps_bind; [apply _| |intros [e|]; apply steps_ret; apply _].
  apply steps_for_each; [apply _|]. intros file.
  apply steps_bind; [apply _|apply extract_extractFile|].
  intros [e|]; apply steps_ret; apply _.
Qed.

(** Every run of [ExtractZipPlugin] returns and writes inside the plugin
    directory only. *)
Lemma ExtractZipPlugin_confined E zipPath name s :
  ∃ r s', ExtractZipPlugin E zipPath name s = Done r s' ∧
          extract_rel (Filepath.Join (basePluginDir (the_extractor s)) name) s s'.
Proof.
  pose proof (extract_body_steps E zipPath
                (Filepath.Join (basePluginDir (the_extractor s)) name) s I) as Hsteps.
  unfold ExtractZipPlugin. erewrite bind_Done; [|reflexivity].
  match goal with |- ∃ r s', ?m s = _ ∧ _ => destruct (m s) as [r s'|?|?] end; [|done..].
  destruct Hsteps. eauto.
Qed.

(** An entry with a parent-directory element is refused before anything
    is touched. *)
Lemma extractFile_rejects file destDir s :
  has_dotdot_element (zf_Name file) →
  extractFile file destDir s = Done (Some ("invalid file path: " +:+ zf_Name file)) s.
Proof.
  intros H. unfold extractFile. by rewrite (Contains_dotdot_element _ H).
Qed.

Lemma extract_loop_result dir files : ∀ s r s',
  for_each (fun file =>
    err <- extractFile file dir ;;
    match err with
    | Some e => ret (Some ("failed to extract file " +:+ zf_Name file +:+ ": " +:+ e))
    | None => ret None
    end) files s = Done r s' →
  match r with
  | Some e => ∃ n e', e = "failed to extract file " +:+ n +:+ ": " +:+ e'
  | None => Forall (fun file => ¬ has_dotdot_element (zf_Name file)) files
  end.
Proof.
  induction files as [|file files IH]; intros s r s'; simpl.
  - intros [= <- _]. constructor.
  - intros H. apply bind_Done_inv in H as (r1 & s1 & Hbody & H).
    apply bind_Done_inv in Hbody as (err & s0 & Hx & Hbody).
    destruct err as [e|].
    + injection Hbody as <- <-. injection H as <- _. eauto.
    + injection Hbody as <- <-. specialize (IH _ _ _ H).
      destruct r; [done|]. constructor; [|done].
      intros Hbad. rewrite (extractFile_rejects _ _ _ Hbad) in Hx. done.
Qed.

(** What [ExtractZipPlugin] returns: an error that says which step failed,
    or the plugin directory, and then no entry of the archive it read had
    a parent-directory element. *)
Lemma ExtractZipPlugin_result E zipPath name s r s' :
  ExtractZipPlugin E zipPath name s = Done r s' →
  match snd r with
  | Some e => fst r = "" ∧ extraction_failure e
  | None =>
      fst r = Filepath.Join (basePluginDir (the_extractor s)) name ∧
      ∃ now f files,
        zip_reader E now f zipPath = Some files ∧
        Forall (fun file => ¬ has_dotdot_element (zf_Name file)) files
  end.
Proof.
  unfold ExtractZipPlugin, extraction_failure. intros H.
  apply bind_Done_inv in H as (e0 & s0 & [= <- <-] & H).
  apply bind_Done_inv in H as (err & s1 & _ & H).
  destruct err as [e|]; [injection H as <- _; simpl; eauto|].
  apply bind_Done_inv in H as (err & s2 & _ & H).
  destruct err as [e|]; [injection H as <- _; simpl; eauto 6|].
  apply bind_Done_inv in H as (reader & s3 & Hz & H).
  destruct reader as [files|]; [|injection H as <- _; simpl; eauto 6].
  apply bind_Done_inv in H as (err & s4 & Hloop & H).
  apply extract_loop_result in Hloop.
  destruct err as [e|]; injection H as <- _; simpl.
  - split; [done|]. right; right; right. exact Hloop.
  - split; [done|]. unfold zip_OpenReader in Hz. revert Hz. run. intros [= Hz _]. eauto.
Qed.

(** C2.  [extractFile] returns "invalid file path: NAME", touching
    nothing, for every entry whose cleaned name has a [".."] element.
    [ExtractZipPlugin] always returns; an error comes with the empty path
    and says which step failed; it returns an error whenever the archive
    holds such an entry.  Every file it writes lies inside the plugin
    directory, and outside that directory every entry of the file system is
    as before (or is a directory made on the way to it). *)
Theorem extraction_rejects_traversal E zipPath name s :
  (∀ file destDir s0,
     has_dotdot_element (zf_Name file) →
     extractFile file destDir s0 =
       Done (Some ("invalid file path: " +:+ zf_Name file)) s0) ∧
  ∃ r s',
    ExtractZipPlugin E zipPath name s = Done r s' ∧
    (∀ e, snd r = Some e → fst r = "" ∧ extraction_failure e) ∧
    ((∀ now f files, zip_reader E now f zipPath = Some files →
                     ∃ file, file ∈ files ∧ has_dotdot_element (zf_Name file)) →
     ∃ e, r = ("", Some e)) ∧
    (∀ k, EvWriteFile k ∈ added s s' →
          inside (Filepath.Join (basePluginDir (the_extractor s)) name) k) ∧
    outside_kept (Filepath.Join (basePluginDir (the_extractor s)) name) (fs s) (fs s').
Proof.
  split; [intros; by apply extractFile_rejects|].
  destruct (ExtractZipPlugin_confined E zipPath name s) as (r & s' & Hrun & Hg & Hout).
  pose proof (ExtractZipPlugin_result E zipPath name s r s' Hrun) as Hres.
  exists r, s'. split; [done|]. split; [|split; [|split; [|done]]].
  - intros e He. by rewrite He in Hres.
  - intros Hbad. destruct r as [p [e|]]; simpl in Hres.
    + destruct Hres as [-> _]. eauto.
    + destruct Hres as (_ & now & f & files & Hz & Hall).
      destruct (Hbad _ _ _ Hz) as (file & Hin & Hdd).
      rewrite Forall_forall in Hall. by destruct (Hall file Hin).
  - destruct Hg as (_ & d & Htr & Hd). rewrite (added_app _ _ _ Htr).
    intros k Hk. rewrite Forall_forall in Hd. specialize (Hd _ Hk).
    by apply bool_decide_eq_true_1 in Hd.
Qed.

Lemma extraction_rejects_traversal_witness :
  ∃ e s',
    ExtractZipPlugin traversal_env "up/demo.zip" "demo" fresh_state = Done ("", Some e) s' ∧
    extraction_failure e ∧
    outside_kept "plugins/demo" (fs fresh_state) (fs s').
Proof.
  destruct (extraction_rejects_traversal traversal_env "up/demo.zip" "demo" fresh_state)
    as (_ & r & s' & Hrun & Hfail & Hrej & _ & Hkept).
  destruct Hrej as [e ->].
  { intros now f files [= <-]. exists (mk_zip "../../evil.go" false 420 10 false false).
    split; [apply list_elem_of_In; right; left; reflexivity|].
    apply list_elem_of_In. left. reflexivity. }
  exists e, s'. split; [exact Hrun|]. split; [by apply (Hfail e)|exact Hkept].
Defined.

(* --------------------------------------------------------------------- *)
(** *** The build cache *)
(* --------------------------------------------------------------------- *)

(** When the walk ends without error, the flag it leaves says whether it
    had a newer source among the entries it could meet. *)
Lemma walk_fold_recompile f root t ks : ∀ skip st,
  (skip ≠ None → st = true) →
  snd (walk_fold (recompile_fn t) f root ks skip st) = None →
  fst (walk_fold (recompile_fn t) f root ks skip st)
    = st || existsb (newer_source f root t) ks.
Proof.
  induction ks as [|k ks IH]; intros skip st Hskip; simpl.
  - intros _. by rewrite orb_false_r.
  - destruct (match skip with Some p => bool_decide (p `prefix_of` k) | None => false end)
      eqn:Hs.
    { intros Herr. rewrite (IH skip st Hskip Herr).
      assert (st = true) as -> by (apply Hskip; by destruct skip). done. }
    unfold newer_source at 1.
    destruct (Fs.stat f k) as [i|] eqn:Hi; [|done].
    destruct (n_dir i && negb (Fs.readable i)); [done|].
    destruct (recompile_fn t _ _ _ st) as [st' r] eqn:Hfn.
    unfold recompile_fn in Hfn.
    destruct (is_source (walk_path root k)); simpl.
    + destruct (t <? n_mtime i)%Z; simpl; injection Hfn as <- <-.
      * intros Herr. rewrite (IH _ true (fun _ => eq_refl) Herr). by rewrite orb_true_r.
      * apply IH, Hskip.
    + injection Hfn as <- <-. apply IH, Hskip.
Qed.

Lemma walk_recompile f root t :
  snd (walk (recompile_fn t) f root false) = None →
  fst (walk (recompile_fn t) f root false) = existsb (newer_source f root t) (walked f root).
Proof. intros H. unfold walk in *. rewrite walk_fold_recompile; done. Qed.

(** The walk ends without error when every entry it can meet is there and,
    if a directory, can be listed. *)
Lemma walk_fold_no_error f root t ks : ∀ skip st,
  Forall (fun k => walk_fails_at f k = false) ks →
  snd (walk_fold (recompile_fn t) f root ks skip st) = None.
Proof.
  induction ks as [|k ks IH]; intros skip st Hks; simpl; [done|].
  inversion_clear Hks as [|?? Hk Hks'].
  destruct (match skip with Some p => bool_decide (p `prefix_of` k) | None => false end);
    [by apply IH|].
  unfold walk_fails_at in Hk.
  destruct (Fs.stat f k) as [i|]; [|done]. rewrite Hk.
  destruct (recompile_fn t _ _ _ st) as [st' r] eqn:Hfn.
  unfold recompile_fn in Hfn.
  destruct (is_source _); [destruct (_ <? _)%Z|]; injection Hfn as <- <-; by apply IH.
Qed.

Lemma CompileWithCache_run E dir name s :
  CompileWithCache E dir name s =
    let out := Filepath.Join (c_buildDir (the_compiler s)) (name +:+ ".so") in
    let s1 := emit (EvStat (K out)) s in
    match Fs.stat_path (fs s) out with
    | None => recompile E dir name s1
    | Some info =>
        let w := walk (recompile_fn (n_mtime info)) (fs s) dir false in
        let s2 := emit (EvWalk (K dir)) s1 in
        match snd w with
        | Some e => Done ("", false, Some e) s2
        | None => if fst w then recompile E dir name s2 else Done (out, false, None) s2
        end
    end.
Proof.
  unfold CompileWithCache, needsRecompilation, filepath_Walk, os_Stat, recompile. run.
  destruct (Fs.stat_path (fs s) _) as [info|]; [|done]. simpl.
  destruct (snd (walk _ _ _ _)); [done|]. by destruct (fst (walk _ _ _ _)).
Qed.




(* --------------------------------------------------------------------- *)
(** *** Failed installs *)
(* --------------------------------------------------------------------- *)

(** A failure inside [InstallFromZip] after extraction is cleaned up: with
    a failing [go build] the extracted directory is removed again, the
    archive stays, and the registry is as before. *)
Example install_compile_failure_cleans_up :
  ∃ s', InstallPluginFromZip broken_build_env "up/demo.zip" "demo" fresh_state
          = Done (Some ("installation failed: failed to compile plugin: " +:+
                        "compilation failed: exit status 1" +:+ nl +:+
                        "Output: main.go:3:1: syntax error")) s' ∧
        entries_below (fs s') ["plugins"; "demo"] = [] ∧
        entries_below (fs s') ["plugins"; ".build"] = [["plugins"; ".build"]] ∧
        registry s' = ∅.
Proof. eexists. split; [vm_compute; reflexivity|]. repeat split; vm_compute; reflexivity. Qed.

(** An entry that climbs out of the plugin directory makes the install
    fail, and nothing is written outside; but the entries extracted before
    it stay behind. *)
Example install_traversal_leaves_extracted_files :
  ∃ s', InstallPluginFromZip traversal_env "up/demo.zip" "demo" fresh_state
          = Done (Some ("installation failed: failed to extract plugin: " +:+
                        "failed to extract file ../../evil.go: " +:+
                        "invalid file path: ../../evil.go")) s' ∧
        entries_below (fs s') [] =
          [["plugins"]; ["plugins"; "demo"]; ["plugins"; "demo"; "main.go"];
           ["up"]; ["up"; "demo.zip"]] ∧
        filter (fun e => is_removal e = true) (added fresh_state s')
          = [EvRemoveAll ["plugins"; "demo"]] ∧
        registry s' = ∅.
Proof. eexists. split; [vm_compute; reflexivity|]. repeat split; vm_compute; reflexivity. Qed.

(** C1 fails at the step "loading the installed plugin".  The archive is
    extracted, compiled and test-loaded; then [LoadPluginFromDirectory]
    fails because the constructor returns nil at its second call.
    [InstallPluginFromZip] returns the error without any cleanup: the
    plugin directory and the compiled module are still on disk, the only
    deletions are the ones made on the way in (the old plugin directory,
    the old module, the uploaded archive).  No registry entry is added. *)
Theorem install_load_failure_leaves_files :
  ∃ s', InstallPluginFromZip (demo_env "linux" 35) "up/demo.zip" "demo" fresh_state
          = Done (Some ("failed to load installed plugin: " +:+
                        "NewPlugin function in plugins/.build/demo.so returned nil")) s' ∧
        entries_below (fs fresh_state) ["plugins"] = [] ∧
        entries_below (fs s') ["plugins"] =
          [["plugins"]; ["plugins"; ".build"]; ["plugins"; ".build"; "demo.so"];
           ["plugins"; "demo"]; ["plugins"; "demo"; "go.mod"];
           ["plugins"; "demo"; "main.go"]; ["plugins"; "demo"; "plugin.json"]] ∧
        filter (fun e => is_removal e = true) (added fresh_state s')
          = [EvRemoveAll ["plugins"; "demo"];
             EvRemove ["plugins"; ".build"; "demo.so"];
             EvRemove ["up"; "demo.zip"]] ∧
        registry s' = ∅.
Proof. eexists. split; [vm_compute; reflexivity|]. repeat split; vm_compute; reflexivity. Qed.

(* --------------------------------------------------------------------- *)
(** *** The registry and the path map keep the same keys *)
(* --------------------------------------------------------------------- *)

#[local] Instance lock_kept_preorder : PreOrder lock_kept.
Proof. split; [done|]. intros s1 s2 s3 H1 H2. unfold lock_kept in *. congruence. Qed.

#[local] Instance anyhow_preorder : PreOrder anyhow.
Proof. by split. Qed.

Lemma consistent_same l s s' :
  heap s' = heap s → plugins (mgr s') = plugins (mgr s) →
  pluginPaths (mgr s') = pluginPaths (mgr s) →
  consistent l s → consistent l s'.
Proof.
  intros Hh Hp Hpp (Hl & Ha & Hk). split; [congruence|].
  split; [by eapply allocated_same|].
  unfold keys_agree, registry, map_read in *. by rewrite Hh, Hp, Hpp.
Qed.

Lemma steps_keys_loader l {A} (m : M A) :
  steps always loader_rel m → steps (consistent l) lock_kept m.
Proof.
  apply steps_mono; [done|]. intros s s' Hc (Hh & [lp Hm] & _).
  split; [unfold lock_kept; by rewrite Hm|].
  eapply consistent_same; [exact Hh|by rewrite Hm..|exact Hc].
Qed.

Lemma steps_keys_event l e : steps (consistent l) lock_kept (event e).
Proof. intros s Hc. simpl. split; [done|]. by eapply consistent_same. Qed.

Lemma steps_keys_map_get l l' k : steps (consistent l) lock_kept (map_get l' k).
Proof. intros s Hc. by split. Qed.

Lemma steps_keys_get_plugins l {A} (body : nat → M A) :
  steps (consistent l) lock_kept (body l) →
  steps (consistent l) lock_kept (bind (get the_plugins) body).
Proof.
  intros Hb s Hc. unfold bind, get, the_plugins. simpl.
  pose proof Hc as (Hl & _). rewrite Hl. by apply Hb.
Qed.

(** The two assignments of [store_plugin] add the same key to both maps. *)
Lemma steps_keys_store l name p dir :
  steps (consistent l) lock_kept (store_plugin name p dir).
Proof.
  intros s (Hl & [m Hm] & Hk). unfold store_plugin, map_set, the_plugins. run.
  rewrite Hm. simpl. split; [done|]. split; [done|]. split.
  - unfold allocated. simpl. apply lookup_lt_is_Some. rewrite length_insert.
    by eapply lookup_lt_Some.
  - unfold keys_agree, registry, map_read in *. simpl. rewrite Hm in Hk. simpl in Hk.
    rewrite list_lookup_insert_eq by (by eapply lookup_lt_Some). simpl.
    by rewrite !dom_insert_L, Hk.
Qed.

(** The two [delete] statements of [UnloadPlugin] remove the same key
    from both maps. *)
Lemma steps_keys_delete l name {A} (rest : M A) :
  steps (consistent l) lock_kept rest →
  steps (consistent l) lock_kept
    (map_delete l name ;;
     modify (set_mgr (set_pluginPaths (fun m => delete name m))) ;; rest).
Proof.
  intros Hrest s (Hl & [m Hm] & Hk). unfold map_delete. run.
  set (s2 := set_mgr _ _).
  assert (Hc2 : consistent l s2).
  { subst s2. split; [done|]. rewrite <- Hl in *. split.
    - unfold allocated. simpl. rewrite Hm. apply lookup_lt_is_Some.
      rewrite length_insert. by eapply lookup_lt_Some.
    - unfold keys_agree, registry, map_read in *. simpl. rewrite Hm in *. simpl in Hk.
      rewrite list_lookup_insert_eq by (by eapply lookup_lt_Some). simpl.
      by rewrite !dom_delete_L, Hk. }
  specialize (Hrest s2 Hc2). destruct (rest s2) as [a s3|s3|s3]; [|done..].
  destruct Hrest as [Hmu Hc3]. split; [|done]. unfold lock_kept in *. by rewrite Hmu.
Qed.

#[local] Hint Resolve steps_keys_map_get steps_keys_store steps_keys_event : steps.
#[local] Hint Extern 5 (steps (consistent _) lock_kept _) =>
  apply steps_keys_loader; solve [auto with steps] : steps.

Lemma steps_keys_log l msg : steps (consistent l) lock_kept (log_Printf msg).
Proof. apply steps_keys_event. Qed.
Lemma steps_keys_Initialize E l p : steps (consistent l) lock_kept (call_Initialize E p).
Proof. unfold call_Initialize. steps_go. Qed.
Lemma steps_keys_Shutdown E l p : steps (consistent l) lock_kept (call_Shutdown E p).
Proof. unfold call_Shutdown. steps_go. Qed.
Lemma steps_keys_routes l name p : steps (consistent l) lock_kept (registerPluginRoutes name p).
Proof. unfold registerPluginRoutes. steps_go. Qed.
#[local] Hint Resolve steps_keys_log steps_keys_Initialize steps_keys_Shutdown
  steps_keys_routes : steps.

Lemma steps_keys_init_and_store E l entry :
  steps (consistent l) lock_kept (init_and_store E entry).
Proof. unfold init_and_store. steps_go. Qed.
#[local] Hint Resolve steps_keys_init_and_store : steps.

(** A critical section whose body keeps the keys in agreement takes a
    ready state to a ready state. *)
Lemma with_Lock_ready l {A} (body : M A) :
  steps (consistent l) lock_kept body → steps (ready l) anyhow (with_Lock body).
Proof.
  intros Hbody s [Hmu Hc]. unfold with_Lock.
  erewrite bind_Done; [|unfold mu_Lock; rewrite Hmu; reflexivity].
  set (s1 := emit EvLock _).
  assert (Hc1 : consistent l s1) by (by eapply consistent_same).
  specialize (Hbody s1 Hc1). unfold bind at 1.
  destruct (body s1) as [r s2|s2|s2]; [|done..]. destruct Hbody as [Hmu2 Hc2].
  unfold bind, mu_Unlock. rewrite Hmu2. simpl. split; [done|]. split; [done|].
  by eapply consistent_same.
Qed.

Lemma InstallPluginFromZip_ready E l zipPath name :
  steps (ready l) anyhow (InstallPluginFromZip E zipPath name).
Proof.
  apply with_Lock_ready. unfold ValidateZipPlugin.
  apply steps_bind; [apply _|steps_go|]. intros v.
  destruct (snd v); [steps_go|]. destruct (negb _); [steps_go|].
  apply steps_keys_get_plugins. steps_go.
Qed.

Lemma LoadPlugin_ready E l name : steps (ready l) anyhow (LoadPlugin E name).
Proof. apply with_Lock_ready, steps_keys_get_plugins. steps_go. Qed.

Lemma LoadPlugins_ready E l dir : steps (ready l) anyhow (LoadPlugins E dir).
Proof. apply with_Lock_ready. steps_go. Qed.

Lemma UnloadPlugin_ready E l name : steps (ready l) anyhow (UnloadPlugin E name).
Proof.
  apply with_Lock_ready, steps_keys_get_plugins.
  apply steps_bind; [apply _|steps_go|]. intros [p|]; [|steps_go].
  apply steps_bind; [apply _|steps_go|]. intros err.
  apply steps_bind; [apply _|destruct err; steps_go|]. intros []. cbv beta.
  apply steps_keys_delete. steps_go.
Qed.

Lemma steps_ready_loader l {A} (m : M A) :
  steps always loader_rel m → steps (ready l) anyhow m.
Proof.
  intros Hm s [Hmu Hc]. pose proof (steps_keys_loader l m Hm s Hc) as H.
  destruct (m s); [|done..]. destruct H as [Hk Hc']. split; [done|].
  split; [unfold lock_kept in Hk; congruence|done].
Qed.

Lemma steps_ready_event l e : is_lock_event e = false → steps (ready l) anyhow (event e).
Proof.
  intros _ s [Hmu Hc]. simpl. split; [done|]. split; [done|]. by eapply consistent_same.
Qed.

Lemma ReloadPlugin_ready E l name : steps (ready l) anyhow (ReloadPlugin E name).
Proof.
  intros s Hr. pose proof Hr as [Hmu Hc]. rewrite ReloadPlugin_run by done.
  destruct (after_path_lookup_facts s Hmu) as (Hmgr & Hh & _).
  assert (Hr0 : ready l (after_path_lookup s)).
  { split; [by rewrite Hmgr|]. eapply consistent_same; [exact Hh|by rewrite Hmgr..|exact Hc]. }
  destruct (pluginPaths (mgr s) !! name) as [dir|]; [|done].
  revert Hr0. generalize (after_path_lookup s). change (steps (ready l) anyhow
    (err <- UnloadPlugin E name ;;
     match err with
     | Some e => ret (Some ("failed to unload plugin: " +:+ e))
     | None =>
         err <- RecompilePlugin E dir ;;
         match err with
         | Some e => ret (Some ("failed to recompile plugin: " +:+ e))
         | None => LoadPlugin E dir
         end
     end)).
  apply steps_bind; [apply _|apply UnloadPlugin_ready|]. intros [e|]; [steps_go|].
  apply steps_bind; [apply _|apply steps_ready_loader; auto with steps|].
  intros [e|]; [steps_go|apply LoadPlugin_ready].
Qed.

Lemma UninstallPlugin_ready E l name : steps (ready l) anyhow (UninstallPlugin E name).
Proof.
  unfold UninstallPlugin.
  apply steps_bind; [apply _|steps_go|]. intros l'.
  apply steps_bind; [apply _|by intros s Hr|]. intros existing.
  apply steps_bind; [apply _| |].
  - destruct existing; [|steps_go].
    apply steps_bind; [apply _|apply UnloadPlugin_ready|]. intros [e|]; steps_go.
  - intros [e|]; [steps_go|].
    apply steps_bind; [apply _|apply steps_ready_loader; auto with steps|].
    intros [e|]; [steps_go|].
    apply steps_bind; [apply _|by apply steps_ready_event|]. intros []. steps_go.
Qed.

(** The registry and the path map have the same keys in every state the
    Manager's methods can reach: [NewManager] makes both maps empty with
    the lock free, and each method that returns, returns in such a state
    again.  Each of them does return. *)
Theorem keys_agree_invariant E :
  (∀ f now, ready 0 (NewManager f now)) ∧
  ∀ l,
    (∀ zipPath name, steps (ready l) anyhow (InstallPluginFromZip E zipPath name)) ∧
    (∀ name, steps (ready l) anyhow (LoadPlugin E name)) ∧
    (∀ dir, steps (ready l) anyhow (LoadPlugins E dir)) ∧
    (∀ name, steps (ready l) anyhow (UnloadPlugin E name)) ∧
    (∀ name, steps (ready l) anyhow (ReloadPlugin E name)) ∧
    (∀ name, steps (ready l) anyhow (UninstallPlugin E name)).
Proof.
  split.
  - intros f now. split; [done|]. split; [done|]. split; [by eexists|].
    unfold keys_agree, registry, map_read. simpl. by rewrite !dom_empty_L.
  - intros l. repeat split; intros.
    + apply InstallPluginFromZip_ready.
    + apply LoadPlugin_ready.
    + apply LoadPlugins_ready.
    + apply UnloadPlugin_ready.
    + apply ReloadPlugin_ready.
    + apply UninstallPlugin_ready.
Qed.

(* --------------------------------------------------------------------- *)
(** *** Paths and strings, by example *)
(* --------------------------------------------------------------------- *)

Example clean_examples :
  Filepath.Clean "./plugins" = "plugins" /\
  Filepath.Clean "a//b/./c/.." = "a/b" /\
  Filepath.Clean "../../evil.go" = "../../evil.go" /\
  Filepath.Clean "/../a" = "/a" /\
  Filepath.Clean "" = "." /\
  Filepath.Clean "a/../.." = ".." /\
  Filepath.Join "./plugins" ".build" = "plugins/.build" /\
  Filepath.Join "plugins/demo" "/etc/passwd" = "plugins/demo/etc/passwd" /\
  Filepath.Dir "plugins/demo/main.go" = "plugins/demo" /\
  Filepath.Dir "main.go" = "." /\
  Filepath.Base "plugins/.build/demo.so" = "demo.so" /\
  Filepath.Base "a/b/" = "b".
Proof. repeat split; reflexivity. Qed.

Example strings_examples :
  Strings.HasSuffix (Strings.ToLower "Demo.ZIP") ".zip" = true /\
  Strings.HasSuffix "zip" ".zip" = false /\
  Strings.Contains "a..b" ".." = true /\
  Strings.Contains "a.b/.c" ".." = false /\
  Strings.TrimSuffix "demo.so" ".so" = "demo" /\
  Strings.Join ["a"; "b"; "c"] ", " = "a, b, c".
Proof. repeat split; reflexivity. Qed.

